(** * node-webrtc: the RTCDataChannel binding (src/interfaces/rtc_data_channel.cc)

    A shallow embedding of the binding between the JavaScript object
    [RTCDataChannel] and the native [webrtc::DataChannelInterface], followed by
    the properties of the binding that the specification states.

    The binding is stateful C++.  Every method is embedded as a function that
    takes the object ([this]) and returns the object after the call, together
    with what the call hands back to JavaScript; a method runs from its
    first statement to its last with nothing in between.  The native
    channel, the N-API values and the event loop are collaborators of the
    binding; the part of their behaviour that the binding observes is
    embedded in the modules [webrtc], [Napi] and [node_webrtc.EventLoop].
    The reference counting of the factory ([_factory->Ref()], [Unref()])
    and the wrap cache take no part in what follows and are left out. *)

From Stdlib Require Import String ZArith Bool Lia List.
From Stdlib Require Import Strings.Byte.
Import ListNotations.

Local Open Scope list_scope.

(** ** The native library, as far as the binding uses it *)

Module webrtc.

(** [webrtc::DataChannelInterface::DataState]. *)
Inductive DataState : Type :=
| kConnecting
| kOpen
| kClosing
| kClosed.

Definition DataState_eqb (a b : DataState) : bool :=
  match a, b with
  | kConnecting, kConnecting | kOpen, kOpen
  | kClosing, kClosing | kClosed, kClosed => true
  | _, _ => false
  end.

(** [webrtc::DataBuffer]: the payload and the flag that tells binary data
    from text. *)
Record DataBuffer : Type := {
  data : list byte;
  binary : bool
}.

Definition size (buffer : DataBuffer) : nat := length (data buffer).

(** [DataBuffer(const std::string& text)]. *)
Definition DataBuffer_of_text (text : string) : DataBuffer :=
  {| data := list_byte_of_string text; binary := false |}.

(** The observer that the native channel calls back: either the
    [DataChannelObserver] that stands in until the JavaScript object exists,
    or the [RTCDataChannel] itself. *)
Inductive Observer : Type :=
| TheDataChannelObserver
| TheRTCDataChannel.

(** The native channel as the binding sees it: the attributes it reads, the
    observer it registered, and a record of what it handed over ([sent]:
    the buffers passed to [Send], oldest first; [close_requests]: the number
    of calls of [Close]).  The native library owns [state] and
    [buffered_amount] and changes them on its own. *)
Record DataChannelInterface : Type := {
  id : Z;
  label : string;
  maxRetransmitTime : Z;
  maxRetransmits : Z;
  negotiated : bool;
  ordered : bool;
  protocol : string;
  buffered_amount : Z;
  state : DataState;
  observer : option Observer;
  sent : list DataBuffer;
  close_requests : nat
}.

Definition with_state (s : DataState) (j : DataChannelInterface) :=
  {| id := id j; label := label j; maxRetransmitTime := maxRetransmitTime j;
     maxRetransmits := maxRetransmits j; negotiated := negotiated j;
     ordered := ordered j; protocol := protocol j;
     buffered_amount := buffered_amount j; state := s;
     observer := observer j; sent := sent j;
     close_requests := close_requests j |}.

Definition with_observer (o : option Observer) (j : DataChannelInterface) :=
  {| id := id j; label := label j; maxRetransmitTime := maxRetransmitTime j;
     maxRetransmits := maxRetransmits j; negotiated := negotiated j;
     ordered := ordered j; protocol := protocol j;
     buffered_amount := buffered_amount j; state := state j;
     observer := o; sent := sent j;
     close_requests := close_requests j |}.

Definition RegisterObserver (o : Observer) (j : DataChannelInterface) :=
  with_observer (Some o) j.

Definition UnregisterObserver (j : DataChannelInterface) :=
  with_observer None j.

(** Modelled from the spec: [bool Send(const DataBuffer&)] of the native
    library, which is not among the sources.  Section 3: the transport
    provides a write that answers with a result; section 7: a write that
    fails does not close the channel.  The call is recorded in [sent] and the
    answer [accepted] of the transport is returned.  What the native channel
    does of its own after a write, to its state or to the count of buffered
    bytes that section 4.3 has it keep, is not part of the call: it reaches
    the binding as a step of the native channel. *)
Definition Send (accepted : bool) (buffer : DataBuffer)
    (j : DataChannelInterface) : bool * DataChannelInterface :=
  (accepted,
   {| id := id j; label := label j; maxRetransmitTime := maxRetransmitTime j;
      maxRetransmits := maxRetransmits j; negotiated := negotiated j;
      ordered := ordered j; protocol := protocol j;
      buffered_amount := buffered_amount j; state := state j;
      observer := observer j; sent := sent j ++ [buffer];
      close_requests := close_requests j |}).

(** Modelled from the spec: [void Close()] of the native library, which is
    not among the sources.  Section 4.1: a local close is answered by the
    state machine of the channel, with state changes of its own; the call
    itself is recorded in [close_requests]. *)
Definition Close (j : DataChannelInterface) : DataChannelInterface :=
  {| id := id j; label := label j; maxRetransmitTime := maxRetransmitTime j;
     maxRetransmits := maxRetransmits j; negotiated := negotiated j;
     ordered := ordered j; protocol := protocol j;
     buffered_amount := buffered_amount j; state := state j;
     observer := observer j; sent := sent j;
     close_requests := S (close_requests j) |}.

End webrtc.

(** ** N-API values *)

Module Napi.

(** The JavaScript values that cross the binding.  A string is held as the
    bytes of its UTF-8 form, which is what [Utf8Value] and [String::New]
    exchange with C++.  A typed array and a data view are a window
    ([byte_offset], [byte_length]) on an array buffer. *)
Inductive Value : Type :=
| Undefined
| Boolean (b : bool)
| Number (n : Z)
| String (utf8 : string)
| ArrayBuffer (bytes : list byte)
| TypedArray (buffer : list byte) (byte_offset byte_length : nat)
| DataView (buffer : list byte) (byte_offset byte_length : nat)
| DOMException (name message : string)
| Object.

Definition IsString (v : Value) : bool :=
  match v with String _ => true | _ => false end.
Definition IsTypedArray (v : Value) : bool :=
  match v with TypedArray _ _ _ => true | _ => false end.
Definition IsDataView (v : Value) : bool :=
  match v with DataView _ _ _ => true | _ => false end.
Definition IsArrayBuffer (v : Value) : bool :=
  match v with ArrayBuffer _ => true | _ => false end.

(** The array buffer behind a typed array, a data view or an array buffer,
    and the window on it. *)
Definition Buffer (v : Value) : list byte :=
  match v with
  | ArrayBuffer bytes => bytes
  | TypedArray buffer _ _ | DataView buffer _ _ => buffer
  | _ => []
  end.
Definition ByteOffset (v : Value) : nat :=
  match v with
  | TypedArray _ byte_offset _ | DataView _ byte_offset _ => byte_offset
  | _ => 0
  end.
Definition ByteLength (v : Value) : nat :=
  match v with
  | ArrayBuffer bytes => length bytes
  | TypedArray _ _ byte_length | DataView _ _ byte_length => byte_length
  | _ => 0
  end.

(** [info[0].ToString().Utf8Value()] on a string. *)
Definition Utf8Value (v : Value) : string :=
  match v with String s => s | _ => EmptyString end.

(** A JavaScript exception raised by the binding. *)
Inductive Exception : Type :=
| TypeError (message : string).

(** How a call from JavaScript into the binding ends: with a value, or with
    a pending exception ([ThrowAsJavaScriptException]). *)
Inductive Completion : Type :=
| Return (v : Value)
| Throw (e : Exception).

(** The bytes of a C string held in [array]: those before the first NUL.
    [None] when the array holds no NUL. *)
Fixpoint c_str (array : list byte) : option (list byte) :=
  match array with
  | [] => None
  | b :: rest =>
      if Byte.eqb b x00 then Some []
      else option_map (cons b) (c_str rest)
  end.

(** [String::New] on a C string ([const char] pointer, no length) reads a
    NUL-terminated string.  When the
    array it is given holds no NUL the read runs past its end; [beyond] is
    what the read finds there before it meets a NUL. *)
Definition String_New_cstr (beyond : list byte -> list byte)
    (array : list byte) : Value :=
  match c_str array with
  | Some s => String (string_of_list_byte s)
  | None => String (string_of_list_byte (array ++ beyond array))
  end.

(** [ArrayBuffer::New(env, data, size)] takes its length from the
    caller. *)
Definition ArrayBuffer_New (array : list byte) (size : nat) : Value :=
  ArrayBuffer (firstn size array).

End Napi.

(** ** The binding *)

Module node_webrtc.

(** [node_webrtc::BinaryType] (src/enums/node_webrtc/binary_type.h). *)
Inductive BinaryType : Type :=
| kBlob
| kArrayBuffer.

(** What the surroundings of the binding decide.  [transport_accepts] is
    the answer of the native [Send] for a buffer; [heap_beyond] is what lies
    in memory behind an array that [String::New] reads as a C string;
    [From_BinaryType] is the converter of src/enums that reads a
    [BinaryType] off a JavaScript value, or says why it cannot. *)
Record Environment : Type := {
  transport_accepts :
    webrtc.DataBuffer -> webrtc.DataChannelInterface -> bool;
  heap_beyond : list byte -> list byte;
  From_BinaryType : Napi.Value -> string + BinaryType
}.

(** The events of a channel are callbacks ([Callback1<RTCDataChannel>])
    built from a lambda that captures a state or a buffer and calls a
    handler of the channel.  An event is held here as the handler it calls
    with the value it captured. *)
Inductive Event : Type :=
| StateChangeEvent (state : webrtc.DataState)
| MessageEvent (buffer : webrtc.DataBuffer).

(** A call of a listener of the JavaScript object:
    [MakeCallback(listener, { argument })]. *)
Record Notification : Type := {
  listener : string;
  argument : Napi.Value
}.

(** Modelled from the spec: [ErrorFactory::napi::CreateInvalidStateError]
    is declared in src/node/error_factory.h, which is not among the sources.
    It builds the [InvalidState] error of section 7 as a JavaScript value;
    building the value raises nothing. *)
Definition CreateInvalidStateError (message : string) : Napi.Value :=
  Napi.DOMException "InvalidStateError" message.

(** Modelled from the spec: the converters of src/converters, which are not
    among the sources.  Section 6 lists the attributes as values the
    application reads: a C++ value is handed to JavaScript as the value of
    the same content. *)
Class Converter (S : Type) : Type := convert : S -> Napi.Value.

#[global] Instance Converter_Z : Converter Z := Napi.Number.
#[global] Instance Converter_bool : Converter bool := Napi.Boolean.
#[global] Instance Converter_string : Converter string := Napi.String.
#[global] Instance Converter_DataState : Converter webrtc.DataState :=
  fun state =>
    match state with
    | webrtc.kConnecting => Napi.String "connecting"
    | webrtc.kOpen => Napi.String "open"
    | webrtc.kClosing => Napi.String "closing"
    | webrtc.kClosed => Napi.String "closed"
    end.

(** Modelled from the spec: the macro [CONVERT_OR_THROW_AND_RETURN_NAPI],
    which is not among the sources.  It returns the converted value; for
    the types of the attributes (section 6) the conversion has a result. *)
Definition CONVERT_OR_THROW_AND_RETURN_NAPI {S : Type} `{Converter S}
    (value : S) : Napi.Completion :=
  Napi.Return (convert value).

(** The event queue and the event loop that [DataChannelObserver] and
    [RTCDataChannel] inherit ([EventQueue], [AsyncObjectWrapWithLoop]:
    src/node/events.h and the headers it includes) are not among the
    sources; their operations are modelled from section 4.5 of the
    specification. *)
Module EventLoop.

(** Modelled from the spec: the state of the loop of a channel, which is
    not among the sources.  Section 4.5: the events are queued ([events],
    oldest first) and drained by the consuming context; [delivered] keeps the
    calls made to the listeners, oldest first; [should_stop] is set once the
    delivery has been ended. *)
Record t : Type := {
  events : list Event;
  should_stop : bool;
  delivered : list Notification
}.

Definition empty : t :=
  {| events := []; should_stop := false; delivered := [] |}.

(** Modelled from the spec: [EventQueue::Enqueue], not among the sources.
    Section 4.5, order of production: a new event goes behind those
    queued. *)
Definition Enqueue (event : Event) (queue : list Event) : list Event :=
  queue ++ [event].

(** Modelled from the spec: [Dispatch] of the event loop, not among the
    sources.  Section 4.5: delivery does not re-enter the producer; the event
    is queued for the consuming context. *)
Definition Dispatch (event : Event) (loop : t) : t :=
  {| events := Enqueue event (events loop);
     should_stop := should_stop loop;
     delivered := delivered loop |}.

(** Modelled from the spec: [Stop] of the event loop, not among the sources.
    Section 4.5: a state change to Closed is the last notification
    delivered; [Stop] ends the delivery. *)
Definition Stop (loop : t) : t :=
  {| events := events loop;
     should_stop := true;
     delivered := delivered loop |}.

(** Modelled from the spec: [MakeCallback], not among the sources.  Section
    4.5: a notification is delivered to the listener registered under
    [name]. *)
Definition MakeCallback (name : string) (value : Napi.Value) (loop : t)
    : t :=
  {| events := events loop;
     should_stop := should_stop loop;
     delivered :=
       delivered loop ++ [{| listener := name; argument := value |}] |}.

Definition with_events (queue : list Event) (loop : t) : t :=
  {| events := queue;
     should_stop := should_stop loop;
     delivered := delivered loop |}.

End EventLoop.

(** *** DataChannelObserver

    Stands in for the JavaScript object until it is constructed, and keeps
    the events of the native channel for it. *)
Module DataChannelObserver.

Record t : Type := {
  _jingleDataChannel : webrtc.DataChannelInterface;
  events : list Event
}.

(** The constructor registers the observer with the native channel. *)
Definition new (jingleDataChannel : webrtc.DataChannelInterface) : t :=
  {| _jingleDataChannel :=
       webrtc.RegisterObserver webrtc.TheDataChannelObserver
         jingleDataChannel;
     events := [] |}.

Definition Enqueue (event : Event) (this : t) : t :=
  {| _jingleDataChannel := _jingleDataChannel this;
     events := EventLoop.Enqueue event (events this) |}.

Definition OnStateChange (this : t) : t :=
  let state := webrtc.state (_jingleDataChannel this) in
  Enqueue (StateChangeEvent state) this.

Definition OnMessage (buffer : webrtc.DataBuffer) (this : t) : t :=
  Enqueue (MessageEvent buffer) this.

End DataChannelObserver.

(** *** RTCDataChannel *)
Module RTCDataChannel.

(** The fields of the object.  [loop] is the part inherited from
    [AsyncObjectWrapWithLoop]; [_jingleDataChannel] is the binding to the
    native channel, [None] for the null pointer. *)
Record t : Type := {
  loop : EventLoop.t;
  _jingleDataChannel : option webrtc.DataChannelInterface;
  _binaryType : BinaryType;
  _cached_id : Z;
  _cached_label : string;
  _cached_max_packet_life_time : Z;
  _cached_max_retransmits : Z;
  _cached_negotiated : bool;
  _cached_ordered : bool;
  _cached_protocol : string;
  _cached_buffered_amount : Z
}.

Definition with_loop (l : EventLoop.t) (this : t) : t :=
  {| loop := l;
     _jingleDataChannel := _jingleDataChannel this;
     _binaryType := _binaryType this;
     _cached_id := _cached_id this;
     _cached_label := _cached_label this;
     _cached_max_packet_life_time := _cached_max_packet_life_time this;
     _cached_max_retransmits := _cached_max_retransmits this;
     _cached_negotiated := _cached_negotiated this;
     _cached_ordered := _cached_ordered this;
     _cached_protocol := _cached_protocol this;
     _cached_buffered_amount := _cached_buffered_amount this |}.

Definition with_jingleDataChannel
    (p : option webrtc.DataChannelInterface) (this : t) : t :=
  {| loop := loop this;
     _jingleDataChannel := p;
     _binaryType := _binaryType this;
     _cached_id := _cached_id this;
     _cached_label := _cached_label this;
     _cached_max_packet_life_time := _cached_max_packet_life_time this;
     _cached_max_retransmits := _cached_max_retransmits this;
     _cached_negotiated := _cached_negotiated this;
     _cached_ordered := _cached_ordered this;
     _cached_protocol := _cached_protocol this;
     _cached_buffered_amount := _cached_buffered_amount this |}.

Definition with_binaryType (b : BinaryType) (this : t) : t :=
  {| loop := loop this;
     _jingleDataChannel := _jingleDataChannel this;
     _binaryType := b;
     _cached_id := _cached_id this;
     _cached_label := _cached_label this;
     _cached_max_packet_life_time := _cached_max_packet_life_time this;
     _cached_max_retransmits := _cached_max_retransmits this;
     _cached_negotiated := _cached_negotiated this;
     _cached_ordered := _cached_ordered this;
     _cached_protocol := _cached_protocol this;
     _cached_buffered_amount := _cached_buffered_amount this |}.

(** The inherited operations of the event loop ([EventLoop]), on the
    object. *)
Definition Dispatch (event : Event) (this : t) : t :=
  with_loop (EventLoop.Dispatch event (loop this)) this.

Definition Stop (this : t) : t :=
  with_loop (EventLoop.Stop (loop this)) this.

Definition MakeCallback (name : string) (value : Napi.Value) (this : t)
    : t :=
  with_loop (EventLoop.MakeCallback name value (loop this)) this.

(** [requeue]: the events that the observer kept are dispatched to the
    channel, oldest first, until the observer has none left. *)
Definition requeue (observer : DataChannelObserver.t) (channel : t) : t :=
  fold_left (fun channel event => Dispatch event channel)
    (DataChannelObserver.events observer) channel.

(** The constructor, called with [new] ([IsConstructCall]) on the observer
    of a native channel.  The object takes the native channel over from
    the observer, registers itself in its place, replays the events the
    observer kept and deletes the observer. *)
Definition constructed (observer : DataChannelObserver.t) : t :=
  let this :=
    {| loop := EventLoop.empty;
       _jingleDataChannel :=
         Some (webrtc.RegisterObserver webrtc.TheRTCDataChannel
                 (DataChannelObserver._jingleDataChannel observer));
       _binaryType := kArrayBuffer;
       _cached_id := 0;
       _cached_label := "";
       _cached_max_packet_life_time := 0;
       _cached_max_retransmits := 0;
       _cached_negotiated := false;
       _cached_ordered := false;
       _cached_protocol := "";
       _cached_buffered_amount := 0 |} in
  requeue observer this.

Definition new (IsConstructCall : bool) (observer : DataChannelObserver.t)
    : Napi.Exception + t :=
  if negb IsConstructCall then
    inl (Napi.TypeError
           "Use the new operator to construct the RTCDataChannel.")
  else
    inr (constructed observer).

(** [Create] goes through [constructor().New]. *)
Definition Create (observer : DataChannelObserver.t)
    : Napi.Exception + t :=
  new true observer.

Definition CleanupInternals (this : t) : t :=
  match _jingleDataChannel this with
  | None => this
  | Some jingleDataChannel =>
      let jingleDataChannel :=
        webrtc.UnregisterObserver jingleDataChannel in
      {| loop := loop this;
         _binaryType := _binaryType this;
         _cached_id := webrtc.id jingleDataChannel;
         _cached_label := webrtc.label jingleDataChannel;
         _cached_max_packet_life_time :=
           webrtc.maxRetransmitTime jingleDataChannel;
         _cached_max_retransmits :=
           webrtc.maxRetransmits jingleDataChannel;
         _cached_negotiated := webrtc.negotiated jingleDataChannel;
         _cached_ordered := webrtc.ordered jingleDataChannel;
         _cached_protocol := webrtc.protocol jingleDataChannel;
         _cached_buffered_amount :=
           webrtc.buffered_amount jingleDataChannel;
         _jingleDataChannel := None |}
  end.

Definition OnPeerConnectionClosed (this : t) : t :=
  match _jingleDataChannel this with
  | Some _ => Stop (CleanupInternals this)
  | None => this
  end.

(** Called by the native channel when its state has changed.  The state
    is read through the binding: with the binding released the read is
    through a null pointer, and there is no result. *)
Definition OnStateChange (this : t) : option t :=
  match _jingleDataChannel this with
  | None => None
  | Some jingleDataChannel =>
      let state := webrtc.state jingleDataChannel in
      let this :=
        if webrtc.DataState_eqb state webrtc.kClosed
        then CleanupInternals this
        else this in
      Some (Dispatch (StateChangeEvent state) this)
  end.

Definition HandleStateChange (channel : t) (state : webrtc.DataState)
    : t :=
  let channel :=
    if webrtc.DataState_eqb state webrtc.kClosed then
      let value := Napi.String "closed" in
      MakeCallback "onstatechange" value channel
    else if webrtc.DataState_eqb state webrtc.kOpen then
      let value := Napi.String "open" in
      MakeCallback "onstatechange" value channel
    else channel in
  if webrtc.DataState_eqb state webrtc.kClosed
  then Stop channel
  else channel.

Definition OnMessage (buffer : webrtc.DataBuffer) (this : t) : t :=
  Dispatch (MessageEvent buffer) this.

Section WithEnvironment.

Variable env : Environment.

(** The payload is copied into an array of exactly [size] bytes.
    Binary data becomes an array buffer of [size] bytes; text becomes
    the string that [String::New] reads in that array as a C string. *)
Definition HandleMessage (channel : t) (buffer : webrtc.DataBuffer)
    : t :=
  let binary := webrtc.binary buffer in
  let size := webrtc.size buffer in
  let message := firstn size (webrtc.data buffer) in
  let value :=
    if binary
    then Napi.ArrayBuffer_New message size
    else Napi.String_New_cstr (heap_beyond env) message in
  MakeCallback "onmessage" value channel.

Definition Send (info0 : Napi.Value) (this : t)
    : Napi.Completion * t :=
  match _jingleDataChannel this with
  | Some jingleDataChannel =>
      if negb (webrtc.DataState_eqb (webrtc.state jingleDataChannel)
                 webrtc.kOpen)
      then
        let _ :=
          CreateInvalidStateError
            "RTCDataChannel.readyState is not 'open'" in
        (Napi.Return Napi.Undefined, this)
      else if Napi.IsString info0 then
        let data := Napi.Utf8Value info0 in
        let buffer := webrtc.DataBuffer_of_text data in
        let '(_, jingleDataChannel) :=
          webrtc.Send
            (transport_accepts env buffer jingleDataChannel)
            buffer jingleDataChannel in
        (Napi.Return Napi.Undefined,
         with_jingleDataChannel (Some jingleDataChannel) this)
      else
        let view :=
          if Napi.IsTypedArray info0 then
            Some (Napi.Buffer info0, Napi.ByteOffset info0,
                  Napi.ByteLength info0)
          else if Napi.IsDataView info0 then
            Some (Napi.Buffer info0, Napi.ByteOffset info0,
                  Napi.ByteLength info0)
          else if Napi.IsArrayBuffer info0 then
            Some (Napi.Buffer info0, 0%nat, Napi.ByteLength info0)
          else None in
        match view with
        | None =>
            (Napi.Throw (Napi.TypeError "Expected a Blob or ArrayBuffer"),
             this)
        | Some (content, byte_offset, byte_length) =>
            let buffer :=
              firstn byte_length (skipn byte_offset content) in
            let data_buffer :=
              {| webrtc.data := buffer; webrtc.binary := true |} in
            let '(_, jingleDataChannel) :=
              webrtc.Send
                (transport_accepts env data_buffer jingleDataChannel)
                data_buffer jingleDataChannel in
            (Napi.Return Napi.Undefined,
             with_jingleDataChannel (Some jingleDataChannel) this)
        end
  | None =>
      let _ :=
        CreateInvalidStateError
          "RTCDataChannel.readyState is not 'open'" in
      (Napi.Return Napi.Undefined, this)
  end.

Definition SetBinaryType (value : Napi.Value) (this : t)
    : Napi.Completion * t :=
  match From_BinaryType env value with
  | inl error => (Napi.Throw (Napi.TypeError error), this)
  | inr binaryType =>
      (Napi.Return Napi.Undefined, with_binaryType binaryType this)
  end.

(** Running an event calls the handler it holds on the channel. *)
Definition Event_Dispatch (event : Event) (channel : t) : t :=
  match event with
  | StateChangeEvent state => HandleStateChange channel state
  | MessageEvent buffer => HandleMessage channel buffer
  end.

(** Modelled from the spec: the run of the event loop (inherited from
    [AsyncObjectWrapWithLoop], not among the sources).  Section 4.5:
    the consuming context drains the queue in order; after [Stop]
    nothing more is delivered.  No handler of the channel adds to the
    queue, so the run goes down the queue it finds. *)
Fixpoint drain (queue : list Event) (this : t) : t :=
  match queue with
  | [] => this
  | event :: rest =>
      let this :=
        Event_Dispatch event
          (with_loop (EventLoop.with_events rest (loop this)) this) in
      if EventLoop.should_stop (loop this) then this
      else drain rest this
  end.

Definition Run (this : t) : t :=
  if EventLoop.should_stop (loop this) then this
  else drain (EventLoop.events (loop this)) this.

End WithEnvironment.

Definition Close (this : t) : Napi.Completion * t :=
  (Napi.Return Napi.Undefined,
   match _jingleDataChannel this with
   | Some jingleDataChannel =>
       with_jingleDataChannel (Some (webrtc.Close jingleDataChannel))
         this
   | None => this
   end).

Definition GetBufferedAmount (this : t) : Napi.Completion :=
  let buffered_amount :=
    match _jingleDataChannel this with
    | Some jingleDataChannel => webrtc.buffered_amount jingleDataChannel
    | None => _cached_buffered_amount this
    end in
  CONVERT_OR_THROW_AND_RETURN_NAPI buffered_amount.

Definition GetId (this : t) : Napi.Completion :=
  let id :=
    match _jingleDataChannel this with
    | Some jingleDataChannel => webrtc.id jingleDataChannel
    | None => _cached_id this
    end in
  CONVERT_OR_THROW_AND_RETURN_NAPI id.

Definition GetLabel (this : t) : Napi.Completion :=
  let label :=
    match _jingleDataChannel this with
    | Some jingleDataChannel => webrtc.label jingleDataChannel
    | None => _cached_label this
    end in
  CONVERT_OR_THROW_AND_RETURN_NAPI label.

Definition GetMaxPacketLifeTime (this : t) : Napi.Completion :=
  let max_packet_life_time :=
    match _jingleDataChannel this with
    | Some jingleDataChannel =>
        webrtc.maxRetransmitTime jingleDataChannel
    | None => _cached_max_packet_life_time this
    end in
  CONVERT_OR_THROW_AND_RETURN_NAPI max_packet_life_time.

Definition GetMaxRetransmits (this : t) : Napi.Completion :=
  let max_retransmits :=
    match _jingleDataChannel this with
    | Some jingleDataChannel => webrtc.maxRetransmits jingleDataChannel
    | None => _cached_max_retransmits this
    end in
  CONVERT_OR_THROW_AND_RETURN_NAPI max_retransmits.

Definition GetNegotiated (this : t) : Napi.Completion :=
  let negotiated :=
    match _jingleDataChannel this with
    | Some jingleDataChannel => webrtc.negotiated jingleDataChannel
    | None => _cached_negotiated this
    end in
  CONVERT_OR_THROW_AND_RETURN_NAPI negotiated.

Definition GetOrdered (this : t) : Napi.Completion :=
  let ordered :=
    match _jingleDataChannel this with
    | Some jingleDataChannel => webrtc.ordered jingleDataChannel
    | None => _cached_ordered this
    end in
  CONVERT_OR_THROW_AND_RETURN_NAPI ordered.

Definition GetPriority (this : t) : Napi.Completion :=
  let priority := "high"%string in
  CONVERT_OR_THROW_AND_RETURN_NAPI priority.

Definition GetProtocol (this : t) : Napi.Completion :=
  let protocol :=
    match _jingleDataChannel this with
    | Some jingleDataChannel => webrtc.protocol jingleDataChannel
    | None => _cached_protocol this
    end in
  CONVERT_OR_THROW_AND_RETURN_NAPI protocol.

Definition GetReadyState (this : t) : Napi.Completion :=
  let state :=
    match _jingleDataChannel this with
    | Some jingleDataChannel => webrtc.state jingleDataChannel
    | None => webrtc.kClosed
    end in
  CONVERT_OR_THROW_AND_RETURN_NAPI state.

(** The converter that hands a [BinaryType] to JavaScript is in src/enums,
    which is not among the sources: the getter takes it as a parameter. *)
Definition GetBinaryType `{Converter BinaryType} (this : t)
    : Napi.Completion :=
  CONVERT_OR_THROW_AND_RETURN_NAPI (_binaryType this).

End RTCDataChannel.

End node_webrtc.

Import node_webrtc.

(** ** The life of a channel

    What happens to a channel, one step at a time: the native channel enters
    a state or receives a message and tells the observer it has registered;
    the event loop runs; JavaScript calls [send], [close] or sets
    [binaryType]; the peer connection is closed. *)

Inductive Step : Type :=
| NativeEntersState (state : webrtc.DataState)
| NativeReceives (buffer : webrtc.DataBuffer)
| LoopRuns
| CallSend (info0 : Napi.Value)
| CallClose
| CallSetBinaryType (value : Napi.Value)
| PeerConnectionCloses.

(** The native channel calls back the channel only while the channel is the
    observer it has registered. *)
Definition listening (this : RTCDataChannel.t) : bool :=
  match RTCDataChannel._jingleDataChannel this with
  | Some jingleDataChannel =>
      match webrtc.observer jingleDataChannel with
      | Some webrtc.TheRTCDataChannel => true
      | _ => false
      end
  | None => false
  end.

Definition native_enters (state : webrtc.DataState) (this : RTCDataChannel.t)
    : RTCDataChannel.t :=
  match RTCDataChannel._jingleDataChannel this with
  | Some jingleDataChannel =>
      RTCDataChannel.with_jingleDataChannel
        (Some (webrtc.with_state state jingleDataChannel)) this
  | None => this
  end.

Section Life.

Variable env : Environment.

Definition exec (step : Step) (this : RTCDataChannel.t)
    : option RTCDataChannel.t :=
  match step with
  | NativeEntersState state =>
      if listening this
      then RTCDataChannel.OnStateChange (native_enters state this)
      else Some (native_enters state this)
  | NativeReceives buffer =>
      if listening this
      then Some (RTCDataChannel.OnMessage buffer this)
      else Some this
  | LoopRuns => Some (RTCDataChannel.Run env this)
  | CallSend info0 => Some (snd (RTCDataChannel.Send env info0 this))
  | CallClose => Some (snd (RTCDataChannel.Close this))
  | CallSetBinaryType value =>
      Some (snd (RTCDataChannel.SetBinaryType env value this))
  | PeerConnectionCloses =>
      Some (RTCDataChannel.OnPeerConnectionClosed this)
  end.

Fixpoint run (steps : list Step) (this : RTCDataChannel.t)
    : option RTCDataChannel.t :=
  match steps with
  | [] => Some this
  | step :: steps =>
      match exec step this with
      | Some this => run steps this
      | None => None
      end
  end.

End Life.

(** What the native channel does before the JavaScript object exists goes to
    the [DataChannelObserver]. *)
Definition observe (step : Step) (observer : DataChannelObserver.t)
    : DataChannelObserver.t :=
  match step with
  | NativeEntersState state =>
      DataChannelObserver.OnStateChange
        {| DataChannelObserver._jingleDataChannel :=
             webrtc.with_state state
               (DataChannelObserver._jingleDataChannel observer);
           DataChannelObserver.events := DataChannelObserver.events observer |}
  | NativeReceives buffer => DataChannelObserver.OnMessage buffer observer
  | _ => observer
  end.

(** ** Reading a channel *)

(** The cacheable attributes as JavaScript reads them, in the order id, label,
    protocol, ordered, negotiated, maxRetransmits, maxPacketLifeTime,
    bufferedAmount. *)
Definition read_attributes (this : RTCDataChannel.t) : list Napi.Completion :=
  [ RTCDataChannel.GetId this;
    RTCDataChannel.GetLabel this;
    RTCDataChannel.GetProtocol this;
    RTCDataChannel.GetOrdered this;
    RTCDataChannel.GetNegotiated this;
    RTCDataChannel.GetMaxRetransmits this;
    RTCDataChannel.GetMaxPacketLifeTime this;
    RTCDataChannel.GetBufferedAmount this ].

(** The same attributes of a native channel, as JavaScript values. *)
Definition native_attributes (j : webrtc.DataChannelInterface)
    : list Napi.Completion :=
  [ Napi.Return (Napi.Number (webrtc.id j));
    Napi.Return (Napi.String (webrtc.label j));
    Napi.Return (Napi.String (webrtc.protocol j));
    Napi.Return (Napi.Boolean (webrtc.ordered j));
    Napi.Return (Napi.Boolean (webrtc.negotiated j));
    Napi.Return (Napi.Number (webrtc.maxRetransmits j));
    Napi.Return (Napi.Number (webrtc.maxRetransmitTime j));
    Napi.Return (Napi.Number (webrtc.buffered_amount j)) ].

(** The cached fields of the object. *)
Definition cached_attributes (this : RTCDataChannel.t) : list Napi.Completion :=
  [ Napi.Return (Napi.Number (RTCDataChannel._cached_id this));
    Napi.Return (Napi.String (RTCDataChannel._cached_label this));
    Napi.Return (Napi.String (RTCDataChannel._cached_protocol this));
    Napi.Return (Napi.Boolean (RTCDataChannel._cached_ordered this));
    Napi.Return (Napi.Boolean (RTCDataChannel._cached_negotiated this));
    Napi.Return (Napi.Number (RTCDataChannel._cached_max_retransmits this));
    Napi.Return
      (Napi.Number (RTCDataChannel._cached_max_packet_life_time this));
    Napi.Return (Napi.Number (RTCDataChannel._cached_buffered_amount this)) ].

(** The state that [readyState] shows. *)
Definition readyState (this : RTCDataChannel.t) : webrtc.DataState :=
  match RTCDataChannel._jingleDataChannel this with
  | Some jingleDataChannel => webrtc.state jingleDataChannel
  | None => webrtc.kClosed
  end.

(** The notifications delivered to the listeners so far, oldest first. *)
Definition delivered (this : RTCDataChannel.t) : list Notification :=
  EventLoop.delivered (RTCDataChannel.loop this).

Definition pending (this : RTCDataChannel.t) : list Event :=
  EventLoop.events (RTCDataChannel.loop this).

Definition stopped (this : RTCDataChannel.t) : bool :=
  EventLoop.should_stop (RTCDataChannel.loop this).

(** ** Events and the notifications they stand for *)

Definition is_closed_event (event : Event) : bool :=
  match event with
  | StateChangeEvent webrtc.kClosed => true
  | _ => false
  end.

Definition has_closed (events : list Event) : bool :=
  existsb is_closed_event events.

(** The events up to the first state change to closed, that one included. *)
Fixpoint until_closed (events : list Event) : list Event :=
  match events with
  | [] => []
  | event :: rest =>
      if is_closed_event event then [event]
      else event :: until_closed rest
  end.

(** The notification of a state change to closed. *)
Definition closed_notification : Notification :=
  {| listener := "onstatechange"; argument := Napi.String "closed" |}.

Definition is_closed_notification (n : Notification) : bool :=
  String.eqb (listener n) "onstatechange"
  && match argument n with
     | Napi.String state => String.eqb state "closed"
     | _ => false
     end.

(** What the listeners are told of an event: a state change to open or to
    closed is announced to [onstatechange], any other state change is not
    announced; a message is announced to [onmessage], with the value that the
    handler makes of the buffer. *)
Definition announce (env : Environment) (event : Event) : list Notification :=
  match event with
  | StateChangeEvent webrtc.kOpen =>
      [{| listener := "onstatechange"; argument := Napi.String "open" |}]
  | StateChangeEvent webrtc.kClosed => [closed_notification]
  | StateChangeEvent _ => []
  | MessageEvent buffer =>
      [{| listener := "onmessage";
          argument :=
            if webrtc.binary buffer
            then Napi.ArrayBuffer (webrtc.data buffer)
            else Napi.String_New_cstr (heap_beyond env) (webrtc.data buffer)
       |}]
  end.

(** The event that the native channel produces in a step. *)
Definition event_of (step : Step) : list Event :=
  match step with
  | NativeEntersState state => [StateChangeEvent state]
  | NativeReceives buffer => [MessageEvent buffer]
  | _ => []
  end.

Definition produced (steps : list Step) : list Event :=
  flat_map event_of steps.

Definition is_teardown (step : Step) : bool :=
  match step with
  | PeerConnectionCloses => true
  | _ => false
  end.

(** The observer after the native channel has gone through [steps]. *)
Definition observed (steps : list Step) (observer : DataChannelObserver.t)
    : DataChannelObserver.t :=
  fold_left (fun observer step => observe step observer) steps observer.

(** A channel that holds a binding is the registered observer of its native
    channel. *)
Definition wired (this : RTCDataChannel.t) : Prop :=
  match RTCDataChannel._jingleDataChannel this with
  | Some jingleDataChannel =>
      webrtc.observer jingleDataChannel = Some webrtc.TheRTCDataChannel
  | None => True
  end.

(** The notifications delivered are those of a front part of the events
    produced, cut after the first state change to closed. *)
Definition in_order_so_far (env : Environment) (events : list Event)
    (this : RTCDataChannel.t) : Prop :=
  exists handled rest,
    until_closed events = handled ++ rest
    /\ delivered this = flat_map (announce env) handled.

(** The same, with what the loop still holds accounted for: as long as the
    loop has not stopped, the events handled and those pending are together
    the events produced, up to the first closed; once it has stopped on a
    closed, all of them have been handled. *)
Definition in_order (env : Environment) (events : list Event)
    (this : RTCDataChannel.t) : Prop :=
  wired this
  /\ exists handled,
       delivered this = flat_map (announce env) handled
       /\ if stopped this
          then handled = until_closed events /\ has_closed events = true
          else has_closed handled = false
               /\ until_closed (handled ++ pending this)
                  = until_closed events
               /\ (RTCDataChannel._jingleDataChannel this = None ->
                   has_closed (pending this) = true).

(** The calls from JavaScript leave the loop alone, and keep the binding and
    the observer of a channel that has them. *)
Definition keeps_binding (this this' : RTCDataChannel.t) : Prop :=
  RTCDataChannel.loop this' = RTCDataChannel.loop this
  /\ match RTCDataChannel._jingleDataChannel this with
     | Some j =>
         exists j',
           RTCDataChannel._jingleDataChannel this' = Some j'
           /\ webrtc.observer j' = webrtc.observer j
     | None => this' = this
     end.

(** The number of notifications of a state change to closed. *)
Definition closed_notifications (l : list Notification) : nat :=
  length (filter is_closed_notification l).

(** No step closes the peer connection. *)
Definition peer_connection_stays (steps : list Step) : bool :=
  forallb (fun step => negb (is_teardown step)) steps.

(** ** What a call of [send] hands to the transport *)

(** The window of a typed array, a data view or an array buffer on its
    bytes: [byte_length] bytes from [byte_offset] on. *)
Definition window (info0 : Napi.Value) : list byte :=
  firstn (Napi.ByteLength info0)
    (skipn (Napi.ByteOffset info0) (Napi.Buffer info0)).

(** The buffers that [Send] builds for a value on an open channel: one text
    buffer for a string, one binary buffer for a typed array, a data view or
    an array buffer, none for any other value. *)
Definition payload (info0 : Napi.Value) : list webrtc.DataBuffer :=
  if Napi.IsString info0 then
    [webrtc.DataBuffer_of_text (Napi.Utf8Value info0)]
  else if Napi.IsTypedArray info0 || Napi.IsDataView info0
          || Napi.IsArrayBuffer info0 then
    [{| webrtc.data := window info0; webrtc.binary := true |}]
  else [].

(** The one buffer that [Send] builds for a value it can send. *)
Definition buffer_of (info0 : Napi.Value) : webrtc.DataBuffer :=
  if Napi.IsString info0
  then webrtc.DataBuffer_of_text (Napi.Utf8Value info0)
  else {| webrtc.data := window info0; webrtc.binary := true |}.

(** The values that [Send] can send. *)
Definition sendable (info0 : Napi.Value) : bool :=
  Napi.IsString info0 || Napi.IsTypedArray info0 || Napi.IsDataView info0
  || Napi.IsArrayBuffer info0.

(** The native channel with more buffers handed to it. *)
Definition handed (buffers : list webrtc.DataBuffer)
    (j : webrtc.DataChannelInterface) : webrtc.DataChannelInterface :=
  {| webrtc.id := webrtc.id j;
     webrtc.label := webrtc.label j;
     webrtc.maxRetransmitTime := webrtc.maxRetransmitTime j;
     webrtc.maxRetransmits := webrtc.maxRetransmits j;
     webrtc.negotiated := webrtc.negotiated j;
     webrtc.ordered := webrtc.ordered j;
     webrtc.protocol := webrtc.protocol j;
     webrtc.buffered_amount := webrtc.buffered_amount j;
     webrtc.state := webrtc.state j;
     webrtc.observer := webrtc.observer j;
     webrtc.sent := webrtc.sent j ++ buffers;
     webrtc.close_requests := webrtc.close_requests j |}.

(** The native channel with more requests to close. *)
Definition asked_to_close (n : nat) (j : webrtc.DataChannelInterface)
    : webrtc.DataChannelInterface :=
  {| webrtc.id := webrtc.id j;
     webrtc.label := webrtc.label j;
     webrtc.maxRetransmitTime := webrtc.maxRetransmitTime j;
     webrtc.maxRetransmits := webrtc.maxRetransmits j;
     webrtc.negotiated := webrtc.negotiated j;
     webrtc.ordered := webrtc.ordered j;
     webrtc.protocol := webrtc.protocol j;
     webrtc.buffered_amount := webrtc.buffered_amount j;
     webrtc.state := webrtc.state j;
     webrtc.observer := webrtc.observer j;
     webrtc.sent := webrtc.sent j;
     webrtc.close_requests := n + webrtc.close_requests j |}.

(** The fields of the object that are the binding's own: the cached
    attributes and the binary type. *)
Definition own_fields (this : RTCDataChannel.t)
    : list Napi.Completion * BinaryType :=
  (cached_attributes this, RTCDataChannel._binaryType this).

(** The steps in which the channel is told to let go of the native channel:
    the native channel reports closed, or the peer connection closes. *)
Definition releases (step : Step) : bool :=
  match step with
  | NativeEntersState webrtc.kClosed => true
  | PeerConnectionCloses => true
  | _ => false
  end.

(** ** Sample data *)

Module Sample.

Definition native (state : webrtc.DataState) : webrtc.DataChannelInterface :=
  {| webrtc.id := 1;
     webrtc.label := "chat";
     webrtc.maxRetransmitTime := 65535;
     webrtc.maxRetransmits := 3;
     webrtc.negotiated := false;
     webrtc.ordered := true;
     webrtc.protocol := "json";
     webrtc.buffered_amount := 42;
     webrtc.state := state;
     webrtc.observer := None;
     webrtc.sent := [];
     webrtc.close_requests := 0 |}.

(** A channel constructed on a native channel in [state], with nothing
    kept by the observer. *)
Definition channel (state : webrtc.DataState) : RTCDataChannel.t :=
  RTCDataChannel.constructed (DataChannelObserver.new (native state)).

(** A transport that refuses every write. *)
Definition refusing : Environment :=
  {| transport_accepts := fun _ _ => false;
     heap_beyond := fun _ => [];
     From_BinaryType := fun _ => inl "not a binary type"%string |}.

(** A transport that takes every write. *)
Definition accepting : Environment :=
  {| transport_accepts := fun _ _ => true;
     heap_beyond := fun _ => [];
     From_BinaryType := fun _ => inr kArrayBuffer |}.

(** The text "a", a NUL, "b". *)
Definition a_NUL_b : webrtc.DataBuffer :=
  {| webrtc.data := [x61; x00; x62]; webrtc.binary := false |}.

(** The five bytes of "hello", as binary data. *)
Definition hello : webrtc.DataBuffer :=
  {| webrtc.data := [x68; x65; x6c; x6c; x6f]; webrtc.binary := true |}.

(** The two bytes of "hi", as text. *)
Definition hi : webrtc.DataBuffer :=
  {| webrtc.data := [x68; x69]; webrtc.binary := false |}.

(** The native channel that [channel state] is bound to: [native state],
    with the channel registered as its observer. *)
Definition bound_native (state : webrtc.DataState)
    : webrtc.DataChannelInterface :=
  webrtc.RegisterObserver webrtc.TheRTCDataChannel
    (webrtc.RegisterObserver webrtc.TheDataChannelObserver (native state)).

End Sample.

(** ** Properties *)

Lemma DataState_eqb_spec a b :
  reflect (a = b) (webrtc.DataState_eqb a b).
Proof. destruct a, b; simpl; constructor; congruence. Qed.

Section Properties.

Variable env : Environment.

(** *** What the getters read *)

Lemma read_released this :
  RTCDataChannel._jingleDataChannel this = None ->
  read_attributes this = cached_attributes this.
Proof.
  intros H. unfold read_attributes, cached_attributes.
  unfold RTCDataChannel.GetId, RTCDataChannel.GetLabel,
    RTCDataChannel.GetProtocol, RTCDataChannel.GetOrdered,
    RTCDataChannel.GetNegotiated, RTCDataChannel.GetMaxRetransmits,
    RTCDataChannel.GetMaxPacketLifeTime, RTCDataChannel.GetBufferedAmount.
  rewrite H. reflexivity.
Qed.

Lemma read_bound this j :
  RTCDataChannel._jingleDataChannel this = Some j ->
  read_attributes this = native_attributes j.
Proof.
  intros H. unfold read_attributes, native_attributes.
  unfold RTCDataChannel.GetId, RTCDataChannel.GetLabel,
    RTCDataChannel.GetProtocol, RTCDataChannel.GetOrdered,
    RTCDataChannel.GetNegotiated, RTCDataChannel.GetMaxRetransmits,
    RTCDataChannel.GetMaxPacketLifeTime, RTCDataChannel.GetBufferedAmount.
  rewrite H. reflexivity.
Qed.

Lemma CleanupInternals_released this :
  RTCDataChannel._jingleDataChannel (RTCDataChannel.CleanupInternals this)
  = None.
Proof.
  unfold RTCDataChannel.CleanupInternals.
  destruct (RTCDataChannel._jingleDataChannel this) eqn:E; [reflexivity|].
  exact E.
Qed.

Lemma CleanupInternals_snapshot this j :
  RTCDataChannel._jingleDataChannel this = Some j ->
  cached_attributes (RTCDataChannel.CleanupInternals this)
  = native_attributes j.
Proof.
  intros H. unfold RTCDataChannel.CleanupInternals. rewrite H. reflexivity.
Qed.

Lemma CleanupInternals_guarded this :
  RTCDataChannel._jingleDataChannel this = None ->
  RTCDataChannel.CleanupInternals this = this.
Proof.
  intros H. unfold RTCDataChannel.CleanupInternals. rewrite H. reflexivity.
Qed.

Lemma CleanupInternals_loop this :
  RTCDataChannel.loop (RTCDataChannel.CleanupInternals this)
  = RTCDataChannel.loop this.
Proof.
  unfold RTCDataChannel.CleanupInternals.
  destruct (RTCDataChannel._jingleDataChannel this); reflexivity.
Qed.

(** *** Send *)

Lemma GetReadyState_readyState this :
  RTCDataChannel.GetReadyState this
  = Napi.Return (convert (readyState this)).
Proof. reflexivity. Qed.

(** C1.  On a channel that is not open (connecting, closing, closed, or
    with the binding released), [Send] hands nothing to the transport and
    leaves the channel as it was; but it does not fail: the InvalidState
    error is built and dropped, and the call returns [undefined] with no
    exception raised. *)
Theorem Send_not_open_raises_nothing info0 this :
  readyState this <> webrtc.kOpen ->
  RTCDataChannel.Send env info0 this = (Napi.Return Napi.Undefined, this).
Proof.
  intros Hstate. unfold RTCDataChannel.Send.
  unfold readyState in Hstate.
  destruct (RTCDataChannel._jingleDataChannel this) as [j|]; [|reflexivity].
  destruct (DataState_eqb_spec (webrtc.state j) webrtc.kOpen)
    as [Heq|Hne]; [contradiction|reflexivity].
Qed.

(** What [Send] does on an open channel with a payload it can send:
    the buffer it builds goes to the transport, and the call returns
    [undefined] whatever the transport answers. *)
Lemma Send_open_text this j text :
  RTCDataChannel._jingleDataChannel this = Some j ->
  webrtc.state j = webrtc.kOpen ->
  let buffer := webrtc.DataBuffer_of_text text in
  RTCDataChannel.Send env (Napi.String text) this
  = (Napi.Return Napi.Undefined,
     RTCDataChannel.with_jingleDataChannel
       (Some (snd (webrtc.Send (transport_accepts env buffer j) buffer j)))
       this).
Proof.
  intros Hj Hopen buffer. unfold RTCDataChannel.Send.
  rewrite Hj, Hopen. reflexivity.
Qed.

Lemma Send_open_binary this j info0 :
  RTCDataChannel._jingleDataChannel this = Some j ->
  webrtc.state j = webrtc.kOpen ->
  Napi.IsString info0 = false ->
  Napi.IsTypedArray info0 || Napi.IsDataView info0
    || Napi.IsArrayBuffer info0 = true ->
  let buffer :=
    {| webrtc.data :=
         firstn (Napi.ByteLength info0)
           (skipn (Napi.ByteOffset info0) (Napi.Buffer info0));
       webrtc.binary := true |} in
  RTCDataChannel.Send env info0 this
  = (Napi.Return Napi.Undefined,
     RTCDataChannel.with_jingleDataChannel
       (Some (snd (webrtc.Send (transport_accepts env buffer j) buffer j)))
       this).
Proof.
  intros Hj Hopen Hstr Hkind buffer. unfold RTCDataChannel.Send.
  rewrite Hj, Hopen.
  destruct info0; simpl in *; try discriminate; reflexivity.
Qed.

(** C7.  On an open channel, a payload that is not a string, a typed array,
    a data view or an array buffer makes [Send] raise a [TypeError]; the
    channel, and with it what the transport was handed, is unchanged. *)
Theorem Send_rejects_other_payloads info0 this j :
  RTCDataChannel._jingleDataChannel this = Some j ->
  webrtc.state j = webrtc.kOpen ->
  Napi.IsString info0 = false ->
  Napi.IsTypedArray info0 = false ->
  Napi.IsDataView info0 = false ->
  Napi.IsArrayBuffer info0 = false ->
  RTCDataChannel.Send env info0 this
  = (Napi.Throw (Napi.TypeError "Expected a Blob or ArrayBuffer"), this).
Proof.
  intros Hj Hopen Hs Ht Hd Ha. unfold RTCDataChannel.Send.
  rewrite Hj, Hopen, Hs, Ht, Hd, Ha. reflexivity.
Qed.

(** C4, amended.  On an open channel, with a text or binary-compatible
    payload, [Send] returns [undefined] and raises nothing whatever the
    transport answers to the write, a refusal included.  The buffer made of
    the payload (the bytes of the string, flagged text; the window of the
    typed array, data view or array buffer, flagged binary) has been handed
    to the native [Send], once, behind what was handed before.  The binding
    does nothing to close the channel: it keeps the native channel, with the
    observer it had and no request to close added, and nothing else of the
    object changes. *)
Theorem Send_ignores_transport_answer info0 this j :
  RTCDataChannel._jingleDataChannel this = Some j ->
  webrtc.state j = webrtc.kOpen ->
  sendable info0 = true ->
  let buffer :=
    if Napi.IsString info0
    then {| webrtc.data := list_byte_of_string (Napi.Utf8Value info0);
            webrtc.binary := false |}
    else {| webrtc.data :=
              firstn (Napi.ByteLength info0)
                (skipn (Napi.ByteOffset info0) (Napi.Buffer info0));
            webrtc.binary := true |} in
  exists j',
    RTCDataChannel.Send env info0 this
    = (Napi.Return Napi.Undefined,
       RTCDataChannel.with_jingleDataChannel (Some j') this)
    /\ webrtc.sent j' = webrtc.sent j ++ [buffer]
    /\ webrtc.close_requests j' = webrtc.close_requests j
    /\ webrtc.observer j' = webrtc.observer j.
Proof.
  intros Hj Hopen Hkind. unfold sendable in Hkind.
  destruct (Napi.IsString info0) eqn:Hs.
  - destruct info0; try discriminate Hs.
    eexists. rewrite (Send_open_text this j utf8 Hj Hopen).
    split; [reflexivity|]. simpl. repeat split.
  - simpl in Hkind.
    eexists. rewrite (Send_open_binary this j info0 Hj Hopen Hs Hkind).
    split; [reflexivity|]. simpl. repeat split.
Qed.

(** C8, amended.  [Send] has no precondition on the length of the payload.
    On an open channel every text or binary-compatible payload, whatever
    its length, goes to the transport as one buffer and the call returns
    [undefined].  An empty binary payload is accepted in each of its forms:
    an empty array buffer, a typed array of byte length 0 and a data view of
    byte length 0 (on any array buffer, at any offset) each go to the
    transport as a binary buffer of no bytes; an empty string goes as a text
    buffer of no bytes. *)
Theorem Send_accepts_empty_payloads this j :
  RTCDataChannel._jingleDataChannel this = Some j ->
  webrtc.state j = webrtc.kOpen ->
  let accepted info0 buffer :=
    RTCDataChannel.Send env info0 this
    = (Napi.Return Napi.Undefined,
       RTCDataChannel.with_jingleDataChannel (Some (handed [buffer] j))
         this) in
  let no_bytes binary := {| webrtc.data := []; webrtc.binary := binary |} in
  (forall info0, sendable info0 = true -> accepted info0 (buffer_of info0))
  /\ accepted (Napi.ArrayBuffer []) (no_bytes true)
  /\ (forall buffer byte_offset,
        accepted (Napi.TypedArray buffer byte_offset 0) (no_bytes true)
        /\ accepted (Napi.DataView buffer byte_offset 0) (no_bytes true))
  /\ accepted (Napi.String "") (no_bytes false).
Proof.
  intros Hj Hopen accepted no_bytes.
  assert (Hall : forall info0,
            sendable info0 = true -> accepted info0 (buffer_of info0)).
  { intros info0 Hkind. unfold accepted, buffer_of, sendable in *.
    destruct (Napi.IsString info0) eqn:Hs.
    - destruct info0; try discriminate Hs.
      now rewrite (Send_open_text this j utf8 Hj Hopen).
    - simpl in Hkind.
      now rewrite (Send_open_binary this j info0 Hj Hopen Hs Hkind). }
  split; [exact Hall|]. split; [exact (Hall (Napi.ArrayBuffer []) eq_refl)|].
  split; [|exact (Hall (Napi.String "") eq_refl)].
  intros buffer byte_offset. split.
  - exact (Hall (Napi.TypedArray buffer byte_offset 0) eq_refl).
  - exact (Hall (Napi.DataView buffer byte_offset 0) eq_refl).
Qed.

(** *** Messages *)

Lemma c_str_stops_at_NUL before after :
  Napi.c_str before = None ->
  Napi.c_str (before ++ x00 :: after) = Some before.
Proof.
  induction before as [|b before IH]; simpl; intros H.
  - reflexivity.
  - destruct (Byte.eqb b x00); [discriminate|].
    destruct (Napi.c_str before); [discriminate|].
    rewrite IH by reflexivity. reflexivity.
Qed.

(** A binary message reaches the listener whole, as an array buffer. *)
Lemma HandleMessage_binary channel bytes :
  RTCDataChannel.HandleMessage env channel
    {| webrtc.data := bytes; webrtc.binary := true |}
  = RTCDataChannel.MakeCallback "onmessage" (Napi.ArrayBuffer bytes) channel.
Proof.
  unfold RTCDataChannel.HandleMessage, Napi.ArrayBuffer_New, webrtc.size.
  simpl. rewrite !firstn_all. reflexivity.
Qed.

(** A text message that holds no NUL: the read runs past the end of the
    array, and the listener gets the text followed by what lies behind it. *)
Lemma HandleMessage_text_reads_beyond channel text :
  Napi.c_str text = None ->
  RTCDataChannel.HandleMessage env channel
    {| webrtc.data := text; webrtc.binary := false |}
  = RTCDataChannel.MakeCallback "onmessage"
      (Napi.String (string_of_list_byte (text ++ heap_beyond env text)))
      channel.
Proof.
  intros H.
  unfold RTCDataChannel.HandleMessage, Napi.String_New_cstr, webrtc.size.
  simpl. rewrite firstn_all, H. reflexivity.
Qed.

(** C3.  What the code does with a text message that holds a NUL: the
    listener is called once, with the text before the first NUL; the NUL
    and the bytes after it are not delivered. *)
Theorem HandleMessage_text_cut_at_NUL channel before after :
  Napi.c_str before = None ->
  RTCDataChannel.HandleMessage env channel
    {| webrtc.data := before ++ x00 :: after; webrtc.binary := false |}
  = RTCDataChannel.MakeCallback "onmessage"
      (Napi.String (string_of_list_byte before)) channel.
Proof.
  intros H.
  unfold RTCDataChannel.HandleMessage, Napi.String_New_cstr, webrtc.size.
  simpl. rewrite firstn_all, (c_str_stops_at_NUL _ _ H). reflexivity.
Qed.

(** *** The event loop touches nothing but itself *)

Lemma with_loop_id this :
  RTCDataChannel.with_loop (RTCDataChannel.loop this) this = this.
Proof. destruct this; reflexivity. Qed.

Lemma HandleStateChange_loop channel state :
  exists l, RTCDataChannel.HandleStateChange channel state
            = RTCDataChannel.with_loop l channel.
Proof.
  unfold RTCDataChannel.HandleStateChange, RTCDataChannel.MakeCallback,
    RTCDataChannel.Stop.
  destruct state; simpl;
    try (eexists; reflexivity);
    exists (RTCDataChannel.loop channel); symmetry; apply with_loop_id.
Qed.

Lemma HandleMessage_loop channel buffer :
  exists l, RTCDataChannel.HandleMessage env channel buffer
            = RTCDataChannel.with_loop l channel.
Proof.
  unfold RTCDataChannel.HandleMessage, RTCDataChannel.MakeCallback.
  eexists. reflexivity.
Qed.

Lemma Event_Dispatch_loop event channel :
  exists l, RTCDataChannel.Event_Dispatch env event channel
            = RTCDataChannel.with_loop l channel.
Proof.
  destruct event; simpl.
  - apply HandleStateChange_loop.
  - apply HandleMessage_loop.
Qed.

Lemma drain_loop queue this :
  exists l, RTCDataChannel.drain env queue this
            = RTCDataChannel.with_loop l this.
Proof.
  revert this. induction queue as [|event rest IH]; intros this; simpl.
  - exists (RTCDataChannel.loop this). symmetry; apply with_loop_id.
  - destruct (Event_Dispatch_loop event
                (RTCDataChannel.with_loop
                   (EventLoop.with_events rest (RTCDataChannel.loop this))
                   this)) as [l Hl].
    rewrite Hl.
    destruct (EventLoop.should_stop
                (RTCDataChannel.loop (RTCDataChannel.with_loop l _))).
    + exists l. reflexivity.
    + destruct (IH (RTCDataChannel.with_loop l
                      (RTCDataChannel.with_loop
                         (EventLoop.with_events rest
                            (RTCDataChannel.loop this)) this)))
        as [l' Hl'].
      rewrite Hl'. exists l'. reflexivity.
Qed.

Lemma Run_loop this :
  exists l, RTCDataChannel.Run env this = RTCDataChannel.with_loop l this.
Proof.
  unfold RTCDataChannel.Run.
  destruct (EventLoop.should_stop (RTCDataChannel.loop this)).
  - exists (RTCDataChannel.loop this). symmetry; apply with_loop_id.
  - apply drain_loop.
Qed.

(** *** Once released, always released *)

Lemma exec_released step this :
  RTCDataChannel._jingleDataChannel this = None ->
  exists this',
    exec env step this = Some this'
    /\ RTCDataChannel._jingleDataChannel this' = None
    /\ cached_attributes this' = cached_attributes this.
Proof.
  intros H.
  assert (Hl : listening this = false) by (unfold listening; now rewrite H).
  assert (Hn : forall s, native_enters s this = this)
    by (intros s; unfold native_enters; now rewrite H).
  destruct step; simpl; rewrite ?Hl, ?Hn.
  - eauto.
  - eauto.
  - destruct (Run_loop this) as [l ->]. eexists; split; [reflexivity|].
    split; [exact H|reflexivity].
  - unfold RTCDataChannel.Send. rewrite H. simpl. eauto.
  - unfold RTCDataChannel.Close. rewrite H. simpl. eauto.
  - unfold RTCDataChannel.SetBinaryType.
    destruct (From_BinaryType env value); simpl; eauto.
  - unfold RTCDataChannel.OnPeerConnectionClosed. rewrite H. eauto.
Qed.

Lemma run_released steps this :
  RTCDataChannel._jingleDataChannel this = None ->
  exists this',
    run env steps this = Some this'
    /\ RTCDataChannel._jingleDataChannel this' = None
    /\ cached_attributes this' = cached_attributes this.
Proof.
  revert this. induction steps as [|step steps IH]; intros this H; simpl.
  - eauto.
  - destruct (exec_released step this H) as (this1 & -> & H1 & E1).
    destruct (IH this1 H1) as (this2 & -> & H2 & E2).
    exists this2. repeat split; congruence.
Qed.

(** A closed reported to the channel: the attributes are copied, the binding
    is released, and the reads give the copies from then on. *)
Lemma reported_closed_snapshot this j :
  RTCDataChannel._jingleDataChannel this = Some j ->
  webrtc.state j = webrtc.kClosed ->
  exists closed,
    RTCDataChannel.OnStateChange this = Some closed
    /\ RTCDataChannel._jingleDataChannel closed = None
    /\ cached_attributes closed = native_attributes j
    /\ forall steps,
         exists later,
           run env steps closed = Some later
           /\ RTCDataChannel._jingleDataChannel later = None
           /\ read_attributes later = native_attributes j.
Proof.
  intros Hj Hclosed. unfold RTCDataChannel.OnStateChange.
  rewrite Hj, Hclosed. simpl.
  eexists. split; [reflexivity|].
  assert (Hnone :
    RTCDataChannel._jingleDataChannel
      (RTCDataChannel.Dispatch (StateChangeEvent webrtc.kClosed)
         (RTCDataChannel.CleanupInternals this)) = None)
    by (simpl; apply CleanupInternals_released).
  assert (Hsnap :
    cached_attributes
      (RTCDataChannel.Dispatch (StateChangeEvent webrtc.kClosed)
         (RTCDataChannel.CleanupInternals this)) = native_attributes j)
    by (rewrite <- (CleanupInternals_snapshot this j Hj); reflexivity).
  split; [exact Hnone|]. split; [exact Hsnap|].
  intros steps.
  destruct (run_released steps _ Hnone) as (later & Hrun & Hrel & Hcache).
  exists later. split; [exact Hrun|]. split; [exact Hrel|].
  rewrite (read_released later Hrel). congruence.
Qed.

(** The same on a teardown, whatever the state of the native channel. *)
Lemma teardown_snapshot this j :
  RTCDataChannel._jingleDataChannel this = Some j ->
  let torn := RTCDataChannel.OnPeerConnectionClosed this in
  RTCDataChannel._jingleDataChannel torn = None
  /\ cached_attributes torn = native_attributes j
  /\ forall steps,
       exists later,
         run env steps torn = Some later
         /\ RTCDataChannel._jingleDataChannel later = None
         /\ read_attributes later = native_attributes j.
Proof.
  intros Hj torn.
  assert (Hnone : RTCDataChannel._jingleDataChannel torn = None).
  { unfold torn, RTCDataChannel.OnPeerConnectionClosed. rewrite Hj. simpl.
    apply CleanupInternals_released. }
  assert (Hsnap : cached_attributes torn = native_attributes j).
  { unfold torn, RTCDataChannel.OnPeerConnectionClosed. rewrite Hj.
    rewrite <- (CleanupInternals_snapshot this j Hj). reflexivity. }
  split; [exact Hnone|]. split; [exact Hsnap|].
  intros steps.
  destruct (run_released steps _ Hnone) as (later & Hrun & Hrel & Hcache).
  exists later. split; [exact Hrun|]. split; [exact Hrel|].
  rewrite (read_released later Hrel). congruence.
Qed.

(** C2, amended.  Take a channel that holds its binding.  When the native
    channel, having entered [kClosed], tells the channel
    ([RTCDataChannel::OnStateChange]), and likewise when the peer connection
    is closed, the channel takes the attributes of the native channel into
    its cached fields and then releases the binding; from then on, whatever
    happens to the channel, reading id, label, protocol, ordered, negotiated,
    maxRetransmits, maxPacketLifeTime and bufferedAmount gives the values
    the native channel had at that moment.  When the channel instead handles
    a closed event (one that the observer kept and the constructor replayed,
    through [HandleStateChange]), it announces closed and stops its loop, but
    takes no snapshot and releases nothing: the cached fields are as they
    were, the binding is held, and the reads come from the native channel. *)
Theorem closed_reads_by_path this j :
  RTCDataChannel._jingleDataChannel this = Some j ->
  (webrtc.state j = webrtc.kClosed ->
   exists closed,
     RTCDataChannel.OnStateChange this = Some closed
     /\ RTCDataChannel._jingleDataChannel closed = None
     /\ cached_attributes closed = native_attributes j
     /\ forall steps,
          exists later,
            run env steps closed = Some later
            /\ RTCDataChannel._jingleDataChannel later = None
            /\ read_attributes later = native_attributes j)
  /\ (let torn := RTCDataChannel.OnPeerConnectionClosed this in
      RTCDataChannel._jingleDataChannel torn = None
      /\ cached_attributes torn = native_attributes j
      /\ forall steps,
           exists later,
             run env steps torn = Some later
             /\ RTCDataChannel._jingleDataChannel later = None
             /\ read_attributes later = native_attributes j)
  /\ (let told := RTCDataChannel.HandleStateChange this webrtc.kClosed in
      delivered told = delivered this ++ [closed_notification]
      /\ stopped told = true
      /\ RTCDataChannel._jingleDataChannel told = Some j
      /\ cached_attributes told = cached_attributes this
      /\ read_attributes told = native_attributes j).
Proof.
  intros Hj. split; [|split].
  - intros Hclosed. now apply reported_closed_snapshot.
  - now apply teardown_snapshot.
  - cbv zeta.
    assert (Hb : RTCDataChannel._jingleDataChannel
                   (RTCDataChannel.HandleStateChange this webrtc.kClosed)
                 = Some j) by exact Hj.
    split; [reflexivity|]. split; [reflexivity|]. split; [exact Hb|].
    split; [reflexivity|].
    now apply read_bound.
Qed.


(** C10.  The priority reads "high", whatever the channel and its state. *)
Theorem GetPriority_high this :
  RTCDataChannel.GetPriority this = Napi.Return (Napi.String "high").
Proof.
  unfold RTCDataChannel.GetPriority, CONVERT_OR_THROW_AND_RETURN_NAPI.
  unfold convert, Converter_string.
  reflexivity.
Qed.

(** *** Lists of events cut at the first closed *)

Lemma has_closed_app a b :
  has_closed (a ++ b) = has_closed a || has_closed b.
Proof. apply existsb_app. Qed.

Lemma until_closed_app_no a b :
  has_closed a = false -> until_closed (a ++ b) = a ++ until_closed b.
Proof.
  induction a as [|event a IH]; simpl; intros H; [reflexivity|].
  apply orb_false_iff in H. destruct H as [He Ha].
  rewrite He, (IH Ha). reflexivity.
Qed.

Lemma until_closed_app_has a b :
  has_closed a = true -> until_closed (a ++ b) = until_closed a.
Proof.
  induction a as [|event a IH]; simpl; intros H; [discriminate|].
  destruct (is_closed_event event); [reflexivity|].
  simpl in H. rewrite (IH H). reflexivity.
Qed.

Lemma until_closed_no a : has_closed a = false -> until_closed a = a.
Proof.
  intros H. rewrite <- (app_nil_r a) at 1.
  rewrite (until_closed_app_no a [] H). simpl. apply app_nil_r.
Qed.

Lemma has_closed_until a : has_closed (until_closed a) = has_closed a.
Proof.
  induction a as [|event a IH]; simpl; [reflexivity|].
  destruct (is_closed_event event) eqn:E; simpl; rewrite E; simpl.
  - reflexivity.
  - exact IH.
Qed.

Lemma until_closed_congr a b x :
  until_closed a = until_closed b ->
  until_closed (a ++ x) = until_closed (b ++ x).
Proof.
  intros H.
  assert (Hc : has_closed a = has_closed b)
    by (rewrite <- (has_closed_until a), <- (has_closed_until b); now rewrite H).
  destruct (has_closed a) eqn:Ha; symmetry in Hc.
  - now rewrite (until_closed_app_has a x Ha), (until_closed_app_has b x Hc).
  - rewrite (until_closed_app_no a x Ha), (until_closed_app_no b x Hc).
    rewrite (until_closed_no a Ha), (until_closed_no b Hc) in H.
    now rewrite H.
Qed.

Lemma until_closed_grows a x :
  exists more, until_closed (a ++ x) = until_closed a ++ more.
Proof.
  destruct (has_closed a) eqn:Ha.
  - exists []. rewrite app_nil_r. now apply until_closed_app_has.
  - exists (until_closed x).
    now rewrite (until_closed_app_no a x Ha), (until_closed_no a Ha).
Qed.

(** A front part of a list cut at the first closed holds no closed, or ends
    with it and is the whole list. *)
Lemma until_closed_front events handled rest :
  until_closed events = handled ++ rest ->
  has_closed handled = false
  \/ exists front,
       handled = front ++ [StateChangeEvent webrtc.kClosed]
       /\ has_closed front = false /\ rest = [].
Proof.
  revert handled.
  induction events as [|event events IH]; simpl; intros handled H.
  - destruct handled; [now left|discriminate].
  - destruct handled as [|h handled]; [now left|].
    destruct (is_closed_event event) eqn:E.
    + simpl in H. injection H as <- H.
      destruct handled; [|discriminate]. simpl in H. subst rest.
      right. exists []. simpl.
      destruct event as [[]|]; try discriminate. auto.
    + simpl in H. injection H as <- H.
      destruct (IH handled H) as [Hno|(front & -> & Hfront & ->)].
      * left. simpl. now rewrite E.
      * right. exists (event :: front). simpl. rewrite E. auto.
Qed.

(** *** What a handler leaves in the loop *)

Lemma Event_Dispatch_delivered event channel :
  delivered (RTCDataChannel.Event_Dispatch env event channel)
  = delivered channel ++ announce env event.
Proof.
  unfold delivered.
  destruct event as [state|buffer]; simpl.
  - unfold RTCDataChannel.HandleStateChange.
    destruct state; simpl; rewrite ?app_nil_r; reflexivity.
  - unfold RTCDataChannel.HandleMessage, Napi.ArrayBuffer_New, webrtc.size.
    rewrite !firstn_all. reflexivity.
Qed.

Lemma Event_Dispatch_stopped event channel :
  stopped (RTCDataChannel.Event_Dispatch env event channel)
  = stopped channel || is_closed_event event.
Proof.
  unfold stopped.
  destruct event as [state|buffer]; simpl.
  - unfold RTCDataChannel.HandleStateChange.
    destruct state; simpl; rewrite ?orb_false_r, ?orb_true_r; reflexivity.
  - now rewrite orb_false_r.
Qed.

Lemma Event_Dispatch_pending event channel :
  pending (RTCDataChannel.Event_Dispatch env event channel)
  = pending channel.
Proof.
  unfold pending.
  destruct event as [state|buffer]; simpl.
  - unfold RTCDataChannel.HandleStateChange. destruct state; reflexivity.
  - reflexivity.
Qed.

(** The run of the loop on a queue: the events up to the first closed are
    handled, in order; the loop has stopped if there was a closed, and has
    emptied the queue if not. *)
Lemma drain_spec queue this :
  stopped this = false ->
  pending this = queue ->
  delivered (RTCDataChannel.drain env queue this)
  = delivered this ++ flat_map (announce env) (until_closed queue)
  /\ stopped (RTCDataChannel.drain env queue this) = has_closed queue
  /\ (has_closed queue = false ->
      pending (RTCDataChannel.drain env queue this) = []).
Proof.
  revert this.
  induction queue as [|event rest IH]; intros this Hs Hp; simpl.
  - rewrite app_nil_r. auto.
  - set (next :=
           RTCDataChannel.Event_Dispatch env event
             (RTCDataChannel.with_loop
                (EventLoop.with_events rest (RTCDataChannel.loop this)) this)).
    assert (Hd : delivered next = delivered this ++ announce env event)
      by (unfold next; rewrite Event_Dispatch_delivered; reflexivity).
    assert (Hst : stopped next = is_closed_event event).
    { unfold next. rewrite Event_Dispatch_stopped.
      change (stopped (RTCDataChannel.with_loop _ this)) with (stopped this).
      now rewrite Hs. }
    assert (Hpn : pending next = rest)
      by (unfold next; rewrite Event_Dispatch_pending; reflexivity).
    change (EventLoop.should_stop (RTCDataChannel.loop next))
      with (stopped next).
    rewrite Hst.
    destruct (is_closed_event event) eqn:E; simpl.
    + rewrite Hd, Hst, app_nil_r. repeat split. discriminate.
    + destruct (IH next Hst Hpn) as (IHd & IHs & IHp).
      rewrite IHd, IHs, Hd, app_assoc. auto.
Qed.

Lemma Run_spec this :
  stopped this = false ->
  delivered (RTCDataChannel.Run env this)
  = delivered this ++ flat_map (announce env) (until_closed (pending this))
  /\ stopped (RTCDataChannel.Run env this) = has_closed (pending this)
  /\ (has_closed (pending this) = false ->
      pending (RTCDataChannel.Run env this) = []).
Proof.
  intros Hs. unfold RTCDataChannel.Run.
  change (EventLoop.should_stop (RTCDataChannel.loop this))
    with (stopped this).
  rewrite Hs. apply drain_spec; [exact Hs|reflexivity].
Qed.

Lemma Run_stopped this :
  stopped this = true -> RTCDataChannel.Run env this = this.
Proof.
  intros Hs. unfold RTCDataChannel.Run.
  change (EventLoop.should_stop (RTCDataChannel.loop this))
    with (stopped this).
  now rewrite Hs.
Qed.

Lemma Run_binding this :
  RTCDataChannel._jingleDataChannel (RTCDataChannel.Run env this)
  = RTCDataChannel._jingleDataChannel this.
Proof. destruct (Run_loop this) as [l ->]. reflexivity. Qed.

(** *** One step of the life of a channel *)

Lemma listening_bound this :
  listening this = true ->
  exists j,
    RTCDataChannel._jingleDataChannel this = Some j
    /\ webrtc.observer j = Some webrtc.TheRTCDataChannel.
Proof.
  unfold listening.
  destruct (RTCDataChannel._jingleDataChannel this) as [j|]; [|discriminate].
  destruct (webrtc.observer j) as [[]|] eqn:O; try discriminate.
  intros _. exists j. auto.
Qed.

Lemma wired_deaf this :
  wired this -> listening this = false ->
  RTCDataChannel._jingleDataChannel this = None.
Proof.
  unfold wired, listening.
  destruct (RTCDataChannel._jingleDataChannel this) as [j|]; [|reflexivity].
  intros ->. discriminate.
Qed.

Lemma exec_total step this : exists this', exec env step this = Some this'.
Proof.
  destruct step; simpl; eauto.
  - destruct (listening this) eqn:L; eauto.
    destruct (listening_bound this L) as (j & Hj & _).
    unfold RTCDataChannel.OnStateChange, native_enters. rewrite Hj. simpl.
    eauto.
  - destruct (listening this); eauto.
Qed.

Lemma run_total steps this : exists this', run env steps this = Some this'.
Proof.
  revert this. induction steps as [|step steps IH]; intros this; simpl.
  - eauto.
  - destruct (exec_total step this) as [this' ->]. apply IH.
Qed.

Lemma run_app steps1 steps2 this :
  run env (steps1 ++ steps2) this
  = match run env steps1 this with
    | Some this' => run env steps2 this'
    | None => None
    end.
Proof.
  revert this. induction steps1 as [|step steps1 IH]; intros this; simpl.
  - reflexivity.
  - destruct (exec env step this); [apply IH|reflexivity].
Qed.

(** An event produced reaches the queue of a channel that listens. *)
Lemma in_order_enqueue events event this this' :
  in_order env events this ->
  wired this' ->
  RTCDataChannel.loop this'
  = EventLoop.Dispatch event (RTCDataChannel.loop this) ->
  (RTCDataChannel._jingleDataChannel this' = None ->
   is_closed_event event = true) ->
  in_order env (events ++ [event]) this'.
Proof.
  intros (_ & handled & Hd & Hinv) Hw Hloop Hrel.
  split; [exact Hw|]. exists handled.
  unfold delivered, stopped, pending in *. rewrite Hloop. simpl.
  split; [exact Hd|].
  destruct (EventLoop.should_stop (RTCDataChannel.loop this)).
  - destruct Hinv as [-> Hc]. split.
    + symmetry. now apply until_closed_app_has.
    + rewrite has_closed_app, Hc. reflexivity.
  - destruct Hinv as (Hno & Hcut & _). split; [exact Hno|]. split.
    + unfold EventLoop.Enqueue. rewrite app_assoc.
      now apply until_closed_congr.
    + intros Hnone. unfold EventLoop.Enqueue.
      rewrite has_closed_app. simpl. rewrite (Hrel Hnone).
      now rewrite orb_true_r.
Qed.

(** An event produced after the channel has released the binding is not
    heard; by then a closed is on its way, or has been delivered. *)
Lemma in_order_missed events event this :
  in_order env events this ->
  RTCDataChannel._jingleDataChannel this = None ->
  in_order env (events ++ [event]) this.
Proof.
  intros (Hw & handled & Hd & Hinv) Hnone.
  split; [exact Hw|]. exists handled. split; [exact Hd|].
  destruct (stopped this).
  - destruct Hinv as [-> Hc]. split.
    + symmetry. now apply until_closed_app_has.
    + rewrite has_closed_app, Hc. reflexivity.
  - destruct Hinv as (Hno & Hcut & Hrel). split; [exact Hno|].
    split; [|exact Hrel].
    rewrite Hcut. symmetry. apply until_closed_app_has.
    rewrite <- has_closed_until, <- Hcut, has_closed_until, has_closed_app.
    rewrite (Hrel Hnone). now rewrite orb_true_r.
Qed.

(** A call that leaves the loop alone and releases nothing. *)
Lemma in_order_frame events this this' :
  in_order env events this ->
  wired this' ->
  RTCDataChannel.loop this' = RTCDataChannel.loop this ->
  (RTCDataChannel._jingleDataChannel this' = None ->
   RTCDataChannel._jingleDataChannel this = None) ->
  in_order env events this'.
Proof.
  intros (_ & handled & Hd & Hinv) Hw Hloop Hrel.
  split; [exact Hw|]. exists handled.
  unfold delivered, stopped, pending in *. rewrite Hloop.
  split; [exact Hd|].
  destruct (EventLoop.should_stop (RTCDataChannel.loop this));
    [exact Hinv|].
  destruct Hinv as (Hno & Hcut & Hclosed). auto.
Qed.

Lemma in_order_Run events this :
  in_order env events this ->
  in_order env events (RTCDataChannel.Run env this).
Proof.
  intros Hin. destruct (stopped this) eqn:Hs.
  - now rewrite (Run_stopped this Hs).
  - destruct Hin as (Hw & handled & Hd & Hinv). rewrite Hs in Hinv.
    destruct Hinv as (Hno & Hcut & Hrel).
    destruct (Run_spec this Hs) as (Rd & Rs & Rp).
    split.
    { unfold wired. rewrite Run_binding. exact Hw. }
    exists (handled ++ until_closed (pending this)).
    split.
    { rewrite Rd, Hd, flat_map_app. reflexivity. }
    rewrite Rs.
    rewrite (until_closed_app_no handled (pending this) Hno) in Hcut.
    destruct (has_closed (pending this)) eqn:Hc.
    + split; [exact Hcut|].
      rewrite <- has_closed_until, <- Hcut, has_closed_app, has_closed_until.
      rewrite Hc. now rewrite orb_true_r.
    + rewrite (Rp eq_refl), app_nil_r. split.
      * rewrite has_closed_app, has_closed_until, Hno, Hc. reflexivity.
      * split.
        -- rewrite until_closed_no; [exact Hcut|].
           rewrite has_closed_app, has_closed_until, Hno, Hc. reflexivity.
        -- rewrite Run_binding. intros Hnone.
           specialize (Hrel Hnone). congruence.
Qed.

Lemma Send_keeps_binding info0 this :
  keeps_binding this (snd (RTCDataChannel.Send env info0 this)).
Proof.
  unfold keeps_binding, RTCDataChannel.Send.
  destruct (RTCDataChannel._jingleDataChannel this) as [j|] eqn:Hj;
    [|simpl; auto].
  destruct (webrtc.DataState_eqb (webrtc.state j) webrtc.kOpen); simpl.
  - destruct info0; simpl; rewrite ?Hj; eauto.
  - rewrite Hj. eauto.
Qed.

Lemma Close_keeps_binding this :
  keeps_binding this (snd (RTCDataChannel.Close this)).
Proof.
  unfold keeps_binding, RTCDataChannel.Close. simpl.
  destruct (RTCDataChannel._jingleDataChannel this) as [j|] eqn:Hj;
    simpl; eauto.
Qed.

Lemma in_order_keeps_binding events this this' :
  in_order env events this ->
  keeps_binding this this' ->
  in_order env events this'.
Proof.
  intros Hin [Hloop Hb].
  destruct (RTCDataChannel._jingleDataChannel this) as [j|] eqn:Hj.
  - destruct Hb as (j' & Hj' & Ho).
    apply (in_order_frame events this this' Hin); [|exact Hloop|].
    + unfold wired. rewrite Hj', Ho.
      destruct Hin as [Hw _]. unfold wired in Hw. now rewrite Hj in Hw.
    + rewrite Hj'. discriminate.
  - now subst this'.
Qed.

Lemma in_order_SetBinaryType events value this :
  in_order env events this ->
  in_order env events (snd (RTCDataChannel.SetBinaryType env value this)).
Proof.
  intros Hin. unfold RTCDataChannel.SetBinaryType.
  destruct (From_BinaryType env value); simpl; [exact Hin|].
  apply (in_order_frame events this _ Hin).
  - destruct Hin as [Hw _]. exact Hw.
  - reflexivity.
  - auto.
Qed.

(** As long as the peer connection stays, every step keeps the notifications
    in the order of the events. *)
Lemma in_order_step events step this :
  in_order env events this ->
  is_teardown step = false ->
  exists this',
    exec env step this = Some this'
    /\ in_order env (events ++ event_of step) this'.
Proof.
  intros Hin Hstep.
  destruct step; simpl in *; try discriminate; rewrite ?app_nil_r.
  - (* the native channel enters a state *)
    destruct (listening this) eqn:L.
    + destruct (listening_bound this L) as (j & Hj & Ho).
      unfold RTCDataChannel.OnStateChange, native_enters. rewrite Hj. simpl.
      eexists. split; [reflexivity|].
      apply (in_order_enqueue events _ this _ Hin).
      * unfold wired. destruct state; simpl; auto.
      * destruct state; reflexivity.
      * destruct state; simpl; try discriminate. auto.
    + pose proof (wired_deaf this (proj1 Hin) L) as Hnone.
      unfold native_enters. rewrite Hnone.
      eexists. split; [reflexivity|].
      now apply in_order_missed.
  - (* the native channel receives a message *)
    destruct (listening this) eqn:L.
    + destruct (listening_bound this L) as (j & Hj & Ho).
      eexists. split; [reflexivity|].
      apply (in_order_enqueue events _ this _ Hin).
      * exact (proj1 Hin).
      * reflexivity.
      * simpl. rewrite Hj. discriminate.
    + eexists. split; [reflexivity|].
      apply in_order_missed; [exact Hin|].
      exact (wired_deaf this (proj1 Hin) L).
  - eexists. split; [reflexivity|]. now apply in_order_Run.
  - eexists. split; [reflexivity|].
    exact (in_order_keeps_binding _ _ _ Hin (Send_keeps_binding info0 this)).
  - eexists. split; [reflexivity|].
    exact (in_order_keeps_binding _ _ _ Hin (Close_keeps_binding this)).
  - eexists. split; [reflexivity|]. now apply in_order_SetBinaryType.
Qed.

Lemma in_order_run events steps this :
  in_order env events this ->
  forallb (fun step => negb (is_teardown step)) steps = true ->
  exists this',
    run env steps this = Some this'
    /\ in_order env (events ++ produced steps) this'.
Proof.
  revert events this.
  induction steps as [|step steps IH]; intros events this Hin Hsteps; simpl.
  - rewrite app_nil_r. eauto.
  - simpl in Hsteps. apply andb_true_iff in Hsteps.
    destruct Hsteps as [Hstep Hsteps]. apply negb_true_iff in Hstep.
    destruct (in_order_step events step this Hin Hstep) as (next & -> & Hn).
    destruct (IH _ next Hn Hsteps) as (last & Hrun & Hl).
    exists last. split; [exact Hrun|].
    unfold produced in *. simpl. now rewrite app_assoc.
Qed.

(** *** With the peer connection closing at any time *)

Lemma in_order_safe events this :
  in_order env events this -> in_order_so_far env events this.
Proof.
  intros (_ & handled & Hd & Hinv). unfold in_order_so_far.
  destruct (stopped this).
  - destruct Hinv as [-> _]. exists (until_closed events), [].
    now rewrite app_nil_r.
  - destruct Hinv as (Hno & Hcut & _).
    exists handled, (until_closed (pending this)).
    now rewrite <- Hcut, (until_closed_app_no _ _ Hno).
Qed.

Lemma in_order_so_far_grows events more this :
  in_order_so_far env events this ->
  in_order_so_far env (events ++ more) this.
Proof.
  intros (handled & rest & Hcut & Hd).
  destruct (until_closed_grows events more) as [extra Hextra].
  exists handled, (rest ++ extra).
  now rewrite Hextra, Hcut, app_assoc.
Qed.

(** Once the loop has stopped, nothing more is delivered. *)
Lemma stopped_step step this :
  stopped this = true ->
  exists this',
    exec env step this = Some this'
    /\ stopped this' = true
    /\ delivered this' = delivered this.
Proof.
  intros Hs. unfold stopped, delivered in *.
  destruct step; simpl.
  - destruct (listening this) eqn:L.
    + destruct (listening_bound this L) as (j & Hj & _).
      unfold RTCDataChannel.OnStateChange, native_enters. rewrite Hj. simpl.
      eexists. split; [reflexivity|].
      destruct state; simpl; auto.
    + eexists. split; [reflexivity|].
      unfold native_enters.
      destruct (RTCDataChannel._jingleDataChannel this); simpl; auto.
  - destruct (listening this); eexists; (split; [reflexivity|]); simpl; auto.
  - rewrite (Run_stopped this Hs). eauto.
  - eexists. split; [reflexivity|].
    destruct (Send_keeps_binding info0 this) as [-> _]. auto.
  - eexists. split; [reflexivity|].
    unfold RTCDataChannel.Close. simpl.
    destruct (RTCDataChannel._jingleDataChannel this); simpl; auto.
  - eexists. split; [reflexivity|].
    unfold RTCDataChannel.SetBinaryType.
    destruct (From_BinaryType env value); simpl; auto.
  - eexists. split; [reflexivity|].
    unfold RTCDataChannel.OnPeerConnectionClosed.
    destruct (RTCDataChannel._jingleDataChannel this); simpl; auto.
    rewrite CleanupInternals_loop. auto.
Qed.

(** Closing the peer connection delivers nothing; it stops the loop of a
    channel that holds its binding and leaves any other channel alone. *)
Lemma teardown_step this :
  RTCDataChannel.OnPeerConnectionClosed this = this
  \/ stopped (RTCDataChannel.OnPeerConnectionClosed this) = true
     /\ delivered (RTCDataChannel.OnPeerConnectionClosed this)
        = delivered this.
Proof.
  unfold RTCDataChannel.OnPeerConnectionClosed, stopped, delivered.
  destruct (RTCDataChannel._jingleDataChannel this); [right|now left].
  simpl. rewrite CleanupInternals_loop. auto.
Qed.

Lemma safe_step events step this :
  in_order env events this
  \/ stopped this = true /\ in_order_so_far env events this ->
  exists this',
    exec env step this = Some this'
    /\ (in_order env (events ++ event_of step) this'
        \/ stopped this' = true
           /\ in_order_so_far env (events ++ event_of step) this').
Proof.
  intros [Hin|[Hs Hsafe]].
  - destruct (is_teardown step) eqn:T.
    + destruct step; try discriminate. simpl. rewrite app_nil_r.
      eexists. split; [reflexivity|].
      destruct (teardown_step this) as [->|[Hs Hd]]; [now left|right].
      split; [exact Hs|].
      destruct (in_order_safe events this Hin) as (handled & rest & Hc & Hh).
      exists handled, rest. rewrite Hd. auto.
    + destruct (in_order_step events step this Hin T) as (this' & He & Hn).
      eauto.
  - destruct (stopped_step step this Hs) as (this' & He & Hs' & Hd).
    exists this'. split; [exact He|]. right. split; [exact Hs'|].
    apply in_order_so_far_grows.
    destruct Hsafe as (handled & rest & Hc & Hh).
    exists handled, rest. rewrite Hd. auto.
Qed.

Lemma safe_run events steps this :
  in_order env events this
  \/ stopped this = true /\ in_order_so_far env events this ->
  exists this',
    run env steps this = Some this'
    /\ in_order_so_far env (events ++ produced steps) this'.
Proof.
  revert events this.
  induction steps as [|step steps IH]; intros events this Hinv; simpl.
  - rewrite app_nil_r. exists this. split; [reflexivity|].
    destruct Hinv as [Hin|[_ Hsafe]]; [now apply in_order_safe|exact Hsafe].
  - destruct (safe_step events step this Hinv) as (next & -> & Hn).
    destruct (IH _ next Hn) as (last & Hrun & Hl).
    exists last. split; [exact Hrun|].
    unfold produced in *. simpl. now rewrite app_assoc.
Qed.

(** After a run of the loop, with the peer connection still there, all the
    events up to the first closed have been announced. *)
Lemma Run_complete events this :
  in_order env events this ->
  delivered (RTCDataChannel.Run env this)
  = flat_map (announce env) (until_closed events).
Proof.
  intros Hin. destruct (stopped this) eqn:Hs.
  - rewrite (Run_stopped this Hs).
    destruct Hin as (_ & handled & Hd & Hinv). rewrite Hs in Hinv.
    destruct Hinv as [-> _]. exact Hd.
  - destruct (Run_spec this Hs) as (Rd & _ & _).
    destruct Hin as (_ & handled & Hd & Hinv). rewrite Hs in Hinv.
    destruct Hinv as (Hno & Hcut & _).
    rewrite Rd, Hd, <- flat_map_app, <- Hcut.
    now rewrite (until_closed_app_no _ _ Hno).
Qed.

(** *** The channel as the constructor leaves it *)

Lemma requeue_loop queue this :
  RTCDataChannel.loop
    (fold_left (fun channel event => RTCDataChannel.Dispatch event channel)
       queue this)
  = EventLoop.with_events (pending this ++ queue) (RTCDataChannel.loop this)
  /\ RTCDataChannel._jingleDataChannel
       (fold_left (fun channel event => RTCDataChannel.Dispatch event channel)
          queue this)
     = RTCDataChannel._jingleDataChannel this.
Proof.
  revert this. induction queue as [|event queue IH]; intros this; simpl.
  - rewrite app_nil_r. unfold pending. split; [|reflexivity].
    destruct (RTCDataChannel.loop this); reflexivity.
  - destruct (IH (RTCDataChannel.Dispatch event this)) as [-> ->].
    split; [|reflexivity]. unfold pending. simpl.
    unfold EventLoop.Enqueue, EventLoop.with_events. simpl.
    now rewrite <- app_assoc.
Qed.

Lemma constructed_in_order observer :
  in_order env (DataChannelObserver.events observer)
    (RTCDataChannel.constructed observer).
Proof.
  unfold RTCDataChannel.constructed, RTCDataChannel.requeue.
  match goal with
  | |- in_order _ _ (fold_left _ _ ?c) =>
      destruct (requeue_loop (DataChannelObserver.events observer) c)
        as [Hloop Hb]
  end.
  split.
  - unfold wired. rewrite Hb. reflexivity.
  - exists []. unfold delivered, stopped, pending. rewrite Hloop, Hb. simpl.
    repeat split. discriminate.
Qed.

Lemma observed_events steps observer :
  DataChannelObserver.events (observed steps observer)
  = DataChannelObserver.events observer ++ produced steps.
Proof.
  revert observer. unfold observed, produced.
  induction steps as [|step steps IH]; intros observer; simpl.
  - now rewrite app_nil_r.
  - rewrite IH. destruct step; simpl; rewrite ?app_nil_r;
      try reflexivity; unfold EventLoop.Enqueue; now rewrite <- app_assoc.
Qed.

(** *** Counting the closed *)

Lemma announce_closed event :
  filter is_closed_notification (announce env event)
  = if is_closed_event event then [closed_notification] else [].
Proof.
  destruct event as [state|buffer]; simpl.
  - destruct state; reflexivity.
  - reflexivity.
Qed.

Lemma closed_notifications_announced handled :
  closed_notifications (flat_map (announce env) handled)
  = length (filter is_closed_event handled).
Proof.
  unfold closed_notifications.
  induction handled as [|event handled IH]; simpl; [reflexivity|].
  rewrite filter_app, length_app, IH, announce_closed.
  destruct (is_closed_event event); reflexivity.
Qed.

Lemma closed_events_until events :
  length (filter is_closed_event (until_closed events))
  = if has_closed events then 1 else 0.
Proof.
  induction events as [|event events IH]; simpl; [reflexivity|].
  destruct (is_closed_event event) eqn:E; simpl; rewrite E; simpl.
  - reflexivity.
  - exact IH.
Qed.

Lemma in_order_so_far_once events this :
  in_order_so_far env events this ->
  closed_notifications (delivered this) <= 1.
Proof.
  intros (handled & rest & Hcut & ->).
  rewrite closed_notifications_announced.
  pose proof (closed_events_until events) as H.
  rewrite Hcut, filter_app, length_app in H.
  destruct (has_closed events); lia.
Qed.

Lemma announce_not_closed handled n :
  has_closed handled = false ->
  In n (flat_map (announce env) handled) ->
  is_closed_notification n = false.
Proof.
  intros Hno Hin.
  destruct (is_closed_notification n) eqn:E; [|reflexivity].
  assert (Hf : In n (filter is_closed_notification
                       (flat_map (announce env) handled)))
    by (apply filter_In; auto).
  pose proof (closed_notifications_announced handled) as Hc.
  unfold closed_notifications in Hc.
  assert (Hz : filter is_closed_event handled = []).
  { clear - Hno. induction handled as [|e h IH]; simpl in *; [reflexivity|].
    apply orb_false_iff in Hno. destruct Hno as [-> Hh]. auto. }
  rewrite Hz in Hc. simpl in Hc.
  destruct (filter is_closed_notification (flat_map (announce env) handled));
    [destruct Hf|discriminate].
Qed.

Lemma closed_at_the_end (l : list Notification) c front n back :
  (forall x, In x l -> is_closed_notification x = false) ->
  l ++ [c] = front ++ n :: back ->
  is_closed_notification n = true ->
  back = [].
Proof.
  revert front. induction l as [|x l IH]; intros front Hl Heq Hn.
  - destruct front as [|y front]; simpl in Heq.
    + now injection Heq as _ <-.
    + injection Heq as _ Heq. destruct front; discriminate.
  - destruct front as [|y front]; simpl in Heq.
    + injection Heq as -> _. rewrite (Hl n) in Hn; [discriminate|now left].
    + injection Heq as _ Heq. apply (IH front); auto.
      intros z Hz. apply Hl. now right.
Qed.

(** Nothing is delivered after the notification of closed. *)
Lemma in_order_so_far_closed_last events this front n back :
  in_order_so_far env events this ->
  delivered this = front ++ n :: back ->
  is_closed_notification n = true ->
  back = [].
Proof.
  intros (handled & rest & Hcut & Hd) Heq Hn.
  destruct (until_closed_front events handled rest Hcut)
    as [Hno|(before & -> & Hno & _)].
  - rewrite (announce_not_closed handled n Hno) in Hn; [discriminate|].
    rewrite <- Hd, Heq. apply in_elt.
  - rewrite flat_map_app in Hd. simpl in Hd. rewrite Hd in Heq.
    apply (closed_at_the_end _ _ _ _ _
             (fun x => announce_not_closed before x Hno) Heq Hn).
Qed.

Lemma produced_app steps1 steps2 :
  produced (steps1 ++ steps2) = produced steps1 ++ produced steps2.
Proof. apply flat_map_app. Qed.

Lemma produced_calls n : produced (repeat CallClose n) = [].
Proof. induction n; simpl; auto. Qed.

Lemma peer_connection_stays_calls n :
  peer_connection_stays (repeat CallClose n) = true.
Proof. induction n; simpl; auto. Qed.

(** *** The notifications of a channel, from its construction on *)

(** C6.  A native channel produces events, first to the observer that stands
    in ([before]), then to the channel constructed on it ([steps], among calls
    from JavaScript, runs of the loop and closings of the peer connection).
    At any time the notifications delivered are those of a front part of the
    events produced, in the order of production, and no further than the
    first state change to closed: a notification of closed is followed by no
    other.  When the peer connection stays, one more run of the loop delivers
    the notifications of all the events up to that closed. *)
Theorem notifications_in_production_order j before steps :
  let channel :=
    RTCDataChannel.constructed (observed before (DataChannelObserver.new j)) in
  let events := produced before ++ produced steps in
  exists this,
    run env steps channel = Some this
    /\ (exists handled rest,
          until_closed events = handled ++ rest
          /\ delivered this = flat_map (announce env) handled)
    /\ (forall front n back,
          delivered this = front ++ n :: back ->
          is_closed_notification n = true ->
          back = [])
    /\ (peer_connection_stays steps = true ->
        delivered (RTCDataChannel.Run env this)
        = flat_map (announce env) (until_closed events)).
Proof.
  intros channel events.
  pose proof (constructed_in_order
                (observed before (DataChannelObserver.new j))) as Hstart.
  rewrite observed_events in Hstart. simpl in Hstart.
  destruct (safe_run _ steps channel (or_introl Hstart))
    as (this & Hrun & Hsafe).
  exists this. split; [exact Hrun|]. split; [exact Hsafe|]. split.
  - intros front n back. now apply in_order_so_far_closed_last with (1 := Hsafe).
  - intros Hstays.
    destruct (in_order_run _ steps channel Hstart Hstays)
      as (this' & Hrun' & Hin).
    assert (this' = this) by congruence. subst this'.
    now apply Run_complete.
Qed.

(** *** A teardown late or early *)

Lemma no_closed_events handled :
  has_closed handled = false -> filter is_closed_event handled = [].
Proof.
  induction handled as [|event handled IH]; simpl; intros H; [reflexivity|].
  apply orb_false_iff in H. destruct H as [-> Hh]. auto.
Qed.

(** Once the loop has stopped, no run of steps delivers anything. *)
Lemma stopped_run steps this :
  stopped this = true ->
  exists last,
    run env steps this = Some last
    /\ stopped last = true
    /\ delivered last = delivered this.
Proof.
  revert this. induction steps as [|step steps IH]; intros this Hs; simpl.
  - eauto.
  - destruct (stopped_step step this Hs) as (next & -> & Hs' & Hd).
    destruct (IH next Hs') as (last & Hrun & Hl & Hdl).
    exists last. repeat split; congruence.
Qed.

(** A channel that has released its binding is not touched by a teardown:
    its notifications stay in order through any steps. *)
Lemma in_order_released_run events steps this :
  in_order env events this ->
  RTCDataChannel._jingleDataChannel this = None ->
  exists last,
    run env steps this = Some last
    /\ in_order env (events ++ produced steps) last
    /\ RTCDataChannel._jingleDataChannel last = None.
Proof.
  revert events this.
  induction steps as [|step steps IH]; intros events this Hin Hnone; simpl.
  - rewrite app_nil_r. eauto.
  - assert (Hstep : exists next,
              exec env step this = Some next
              /\ in_order env (events ++ event_of step) next).
    { destruct (is_teardown step) eqn:T.
      - destruct step; try discriminate. simpl. rewrite app_nil_r.
        exists this. split; [|exact Hin].
        unfold RTCDataChannel.OnPeerConnectionClosed. now rewrite Hnone.
      - now apply in_order_step. }
    destruct Hstep as (next & He & Hn).
    destruct (exec_released step this Hnone) as (next' & He' & Hnone' & _).
    assert (next' = next) by congruence. subst next'.
    rewrite He.
    destruct (IH _ next Hn Hnone') as (last & Hrun & Hl & Hrel).
    exists last. split; [exact Hrun|]. split; [|exact Hrel].
    unfold produced in *. simpl. now rewrite app_assoc.
Qed.

(** C5, amended.  Take the life of a channel in which the native channel
    reports a state change to closed, with any number of calls of [close]
    wherever they fall, and no teardown so far.  If the peer connection
    stays, the listeners are told of closed exactly once when the loop has
    run.  If at that point the channel has released its binding (the
    closed was reported to the channel itself) or its loop has stopped (it
    has delivered the closed), the listeners are told exactly once whatever
    follows, teardowns included.  If the channel still holds its binding and
    its loop has not stopped, the closed has not been delivered, and a
    teardown now stops the loop for good: the listeners are never told.  In
    any life at all they are told at most once.  On a channel that has
    released its binding, [close] changes nothing. *)
Theorem close_notifies_closed_once j before pre post n :
  let channel :=
    RTCDataChannel.constructed (observed before (DataChannelObserver.new j)) in
  peer_connection_stays (pre ++ post) = true ->
  has_closed (produced before ++ produced (pre ++ post)) = true ->
  (exists this,
     run env (pre ++ repeat CallClose n ++ post ++ [LoopRuns]) channel
     = Some this
     /\ closed_notifications (delivered this) = 1)
  /\ (exists mid,
        run env (pre ++ repeat CallClose n ++ post) channel = Some mid
        /\ (RTCDataChannel._jingleDataChannel mid = None
            \/ stopped mid = true ->
            forall rest,
              exists last,
                run env (rest ++ [LoopRuns]) mid = Some last
                /\ closed_notifications (delivered last) = 1)
        /\ (forall native,
              RTCDataChannel._jingleDataChannel mid = Some native ->
              stopped mid = false ->
              closed_notifications (delivered mid) = 0
              /\ forall rest,
                   exists last,
                     run env (PeerConnectionCloses :: rest) mid = Some last
                     /\ closed_notifications (delivered last) = 0))
  /\ (forall steps,
        exists this,
          run env steps channel = Some this
          /\ closed_notifications (delivered this) <= 1)
  /\ (forall this,
        RTCDataChannel.Close (RTCDataChannel.CleanupInternals this)
        = (Napi.Return Napi.Undefined, RTCDataChannel.CleanupInternals this)).
Proof.
  intros channel Hstays Hclosed.
  pose proof (constructed_in_order
                (observed before (DataChannelObserver.new j))) as Hstart.
  rewrite observed_events in Hstart. simpl in Hstart.
  unfold peer_connection_stays in Hstays.
  rewrite forallb_app in Hstays. apply andb_true_iff in Hstays.
  destruct Hstays as [Hpre Hpost].
  destruct (in_order_run _ (pre ++ repeat CallClose n ++ post) channel Hstart)
    as (mid & Hmid & Hin).
  { pose proof (peer_connection_stays_calls n) as Hcalls.
    unfold peer_connection_stays in Hcalls.
    now rewrite !forallb_app, Hpre, Hpost, Hcalls. }
  rewrite !produced_app, produced_calls in Hin. simpl in Hin.
  rewrite <- produced_app in Hin.
  set (events := produced before ++ produced (pre ++ post)) in *.
  split; [|split; [|split]].
  - replace (pre ++ repeat CallClose n ++ post ++ [LoopRuns])
      with ((pre ++ repeat CallClose n ++ post) ++ [LoopRuns])
      by (now rewrite <- !app_assoc).
    rewrite run_app, Hmid.
    simpl. eexists. split; [reflexivity|].
    rewrite (Run_complete _ mid Hin).
    rewrite closed_notifications_announced, closed_events_until.
    now rewrite Hclosed.
  - exists mid. split; [exact Hmid|]. split.
    + intros [Hnone|Hs] rest.
      * destruct (in_order_released_run _ rest mid Hin Hnone)
          as (last & Hrun & Hl & _).
        rewrite run_app, Hrun. simpl. eexists. split; [reflexivity|].
        rewrite (Run_complete _ last Hl).
        rewrite closed_notifications_announced, closed_events_until.
        now rewrite has_closed_app, Hclosed.
      * destruct (stopped_run (rest ++ [LoopRuns]) mid Hs)
          as (last & Hrun & _ & Hd).
        exists last. split; [exact Hrun|]. rewrite Hd.
        destruct Hin as (_ & handled & Hh & Hinv). rewrite Hs in Hinv.
        destruct Hinv as [-> _]. rewrite Hh.
        rewrite closed_notifications_announced, closed_events_until.
        now rewrite Hclosed.
    + intros native Hb Hs.
      assert (Hzero : closed_notifications (delivered mid) = 0).
      { destruct Hin as (_ & handled & Hh & Hinv). rewrite Hs in Hinv.
        destruct Hinv as (Hno & _ & _). rewrite Hh.
        rewrite closed_notifications_announced.
        now rewrite (no_closed_events handled Hno). }
      split; [exact Hzero|]. intros rest. simpl.
      destruct (teardown_step mid) as [Hid|[Hst Hd]].
      * unfold RTCDataChannel.OnPeerConnectionClosed in Hid.
        rewrite Hb in Hid.
        assert (Hst : stopped mid = true) by (rewrite <- Hid; reflexivity).
        congruence.
      * destruct (stopped_run rest _ Hst) as (last & Hrun & _ & Hdl).
        exists last. split; [exact Hrun|]. now rewrite Hdl, Hd.
  - intros steps.
    destruct (safe_run _ steps channel (or_introl Hstart))
      as (this & Hrun & Hsafe).
    exists this. split; [exact Hrun|].
    now apply in_order_so_far_once with (1 := Hsafe).
  - intros this. unfold RTCDataChannel.Close.
    now rewrite CleanupInternals_released.
Qed.

End Properties.

(** [Send] on a connecting channel: [undefined], no exception, nothing sent. *)
Lemma Send_not_open_raises_nothing_witness :
  readyState (Sample.channel webrtc.kConnecting) <> webrtc.kOpen /\
  RTCDataChannel.Send Sample.accepting (Napi.String "hello")
    (Sample.channel webrtc.kConnecting)
  = (Napi.Return Napi.Undefined, Sample.channel webrtc.kConnecting).
Proof.
  split.
  - simpl. discriminate.
  - apply (Send_not_open_raises_nothing Sample.accepting).
    simpl. discriminate.
Defined.

Lemma Send_rejects_other_payloads_witness :
  RTCDataChannel.Send Sample.accepting (Napi.Number 7)
    (Sample.channel webrtc.kOpen)
  = (Napi.Throw (Napi.TypeError "Expected a Blob or ArrayBuffer"),
     Sample.channel webrtc.kOpen).
Proof.
  apply (Send_rejects_other_payloads Sample.accepting (Napi.Number 7)
           (Sample.channel webrtc.kOpen) _ eq_refl);
    reflexivity.
Defined.

(** The transport refuses the write, and [Send] still returns [undefined]:
    no failure reaches the caller. *)
Lemma Send_refused_write_not_reported :
  let this := Sample.channel webrtc.kOpen in
  let buffer := webrtc.DataBuffer_of_text "hello" in
  (exists j,
     RTCDataChannel._jingleDataChannel this = Some j
     /\ webrtc.state j = webrtc.kOpen
     /\ fst (webrtc.Send (transport_accepts Sample.refusing buffer j) buffer j)
        = false)
  /\ fst (RTCDataChannel.Send Sample.refusing (Napi.String "hello") this)
     = Napi.Return Napi.Undefined
  /\ forall e,
       fst (RTCDataChannel.Send Sample.refusing (Napi.String "hello") this)
       <> Napi.Throw e.
Proof.
  simpl. split; [|split].
  - eexists. repeat split.
  - reflexivity.
  - intros e. discriminate.
Qed.

Lemma Send_ignores_transport_answer_witness :
  sendable (Napi.String "hello") = true /\
  exists j',
    RTCDataChannel.Send Sample.refusing (Napi.String "hello")
      (Sample.channel webrtc.kOpen)
    = (Napi.Return Napi.Undefined,
       RTCDataChannel.with_jingleDataChannel (Some j')
         (Sample.channel webrtc.kOpen))
    /\ webrtc.sent j'
       = webrtc.sent (Sample.bound_native webrtc.kOpen)
         ++ [{| webrtc.data := list_byte_of_string "hello";
                webrtc.binary := false |}]
    /\ webrtc.close_requests j'
       = webrtc.close_requests (Sample.bound_native webrtc.kOpen)
    /\ webrtc.observer j'
       = webrtc.observer (Sample.bound_native webrtc.kOpen).
Proof.
  split; [reflexivity|].
  exact (Send_ignores_transport_answer Sample.refusing (Napi.String "hello")
           (Sample.channel webrtc.kOpen) (Sample.bound_native webrtc.kOpen)
           eq_refl eq_refl eq_refl).
Defined.

(** An empty array buffer on an open channel is not rejected: it is handed
    to the transport and [Send] returns [undefined]. *)
Lemma Send_empty_binary_not_rejected :
  let result :=
    RTCDataChannel.Send Sample.accepting (Napi.ArrayBuffer [])
      (Sample.channel webrtc.kOpen) in
  readyState (Sample.channel webrtc.kOpen) = webrtc.kOpen
  /\ fst result = Napi.Return Napi.Undefined
  /\ exists j',
       RTCDataChannel._jingleDataChannel (snd result) = Some j'
       /\ webrtc.sent j' = [{| webrtc.data := []; webrtc.binary := true |}].
Proof.
  simpl. split; [reflexivity|]. split; [reflexivity|].
  eexists. split; reflexivity.
Qed.

Lemma Send_accepts_empty_payloads_witness :
  let this := Sample.channel webrtc.kOpen in
  let j := Sample.bound_native webrtc.kOpen in
  let accepted info0 buffer :=
    RTCDataChannel.Send Sample.accepting info0 this
    = (Napi.Return Napi.Undefined,
       RTCDataChannel.with_jingleDataChannel (Some (handed [buffer] j))
         this) in
  let no_bytes binary := {| webrtc.data := []; webrtc.binary := binary |} in
  (forall info0, sendable info0 = true -> accepted info0 (buffer_of info0))
  /\ accepted (Napi.ArrayBuffer []) (no_bytes true)
  /\ (forall buffer byte_offset,
        accepted (Napi.TypedArray buffer byte_offset 0) (no_bytes true)
        /\ accepted (Napi.DataView buffer byte_offset 0) (no_bytes true))
  /\ accepted (Napi.String "") (no_bytes false).
Proof.
  exact (Send_accepts_empty_payloads Sample.accepting
           (Sample.channel webrtc.kOpen) (Sample.bound_native webrtc.kOpen)
           eq_refl eq_refl).
Defined.

(** The text "a", NUL, "b" reaches the listener as "a". *)
Lemma HandleMessage_text_cut_at_NUL_witness :
  Napi.c_str [x61] = None /\
  RTCDataChannel.HandleMessage Sample.accepting
    (Sample.channel webrtc.kOpen) Sample.a_NUL_b
  = RTCDataChannel.MakeCallback "onmessage" (Napi.String "a")
      (Sample.channel webrtc.kOpen).
Proof.
  split; [reflexivity|].
  exact (HandleMessage_text_cut_at_NUL Sample.accepting
           (Sample.channel webrtc.kOpen) [x61] [x62] eq_refl).
Defined.

(** A channel bound to a native channel that has closed: told by the native
    channel, torn down, or handling a replayed closed. *)
Lemma closed_reads_by_path_witness :
  let this := Sample.channel webrtc.kClosed in
  let j := Sample.bound_native webrtc.kClosed in
  (webrtc.state j = webrtc.kClosed ->
   exists closed,
     RTCDataChannel.OnStateChange this = Some closed
     /\ RTCDataChannel._jingleDataChannel closed = None
     /\ cached_attributes closed = native_attributes j
     /\ forall steps,
          exists later,
            run Sample.accepting steps closed = Some later
            /\ RTCDataChannel._jingleDataChannel later = None
            /\ read_attributes later = native_attributes j)
  /\ (let torn := RTCDataChannel.OnPeerConnectionClosed this in
      RTCDataChannel._jingleDataChannel torn = None
      /\ cached_attributes torn = native_attributes j
      /\ forall steps,
           exists later,
             run Sample.accepting steps torn = Some later
             /\ RTCDataChannel._jingleDataChannel later = None
             /\ read_attributes later = native_attributes j)
  /\ (let told := RTCDataChannel.HandleStateChange this webrtc.kClosed in
      delivered told = delivered this ++ [closed_notification]
      /\ stopped told = true
      /\ RTCDataChannel._jingleDataChannel told = Some j
      /\ cached_attributes told = cached_attributes this
      /\ read_attributes told = native_attributes j).
Proof.
  exact (closed_reads_by_path Sample.accepting
           (Sample.channel webrtc.kClosed)
           (Sample.bound_native webrtc.kClosed) eq_refl).
Defined.

(** The native channel closes before the channel is constructed; the
    observer keeps the closed and the constructor replays it.  When the loop
    has run the listeners have been told of closed and the channel reads
    closed, but no snapshot has been taken and the binding is held: the
    cached fields are the zeros of the constructor, not the attributes of
    the native channel. *)
Lemma replayed_closed_takes_no_snapshot :
  exists this native,
    run Sample.accepting [LoopRuns]
      (RTCDataChannel.constructed
         (observed [NativeEntersState webrtc.kClosed]
            (DataChannelObserver.new (Sample.native webrtc.kClosing))))
    = Some this
    /\ delivered this = [closed_notification]
    /\ readyState this = webrtc.kClosed
    /\ RTCDataChannel._jingleDataChannel this = Some native
    /\ cached_attributes this
       = [ Napi.Return (Napi.Number 0); Napi.Return (Napi.String "");
           Napi.Return (Napi.String ""); Napi.Return (Napi.Boolean false);
           Napi.Return (Napi.Boolean false); Napi.Return (Napi.Number 0);
           Napi.Return (Napi.Number 0); Napi.Return (Napi.Number 0) ]
    /\ cached_attributes this <> native_attributes native.
Proof.
  eexists. eexists. split; [reflexivity|].
  split; [reflexivity|]. split; [reflexivity|]. split; [reflexivity|].
  split; [reflexivity|]. discriminate.
Qed.

(** A channel that opens and receives "hello" before its construction, then
    "hi", is closed by two calls of [close], and hears of a late message:
    the listeners get open, "hello", "hi", closed, in that order, and nothing
    after. *)
Example life_of_a_channel :
  option_map delivered
    (run Sample.accepting
       [ NativeReceives Sample.hi; CallClose; LoopRuns; CallClose;
         NativeEntersState webrtc.kClosing;
         NativeEntersState webrtc.kClosed;
         NativeReceives Sample.hello; CallClose;
         LoopRuns; LoopRuns ]
       (RTCDataChannel.constructed
          (observed [ NativeEntersState webrtc.kOpen;
                      NativeReceives Sample.hello ]
             (DataChannelObserver.new
                (Sample.native webrtc.kConnecting)))))
  = Some
      [ {| listener := "onstatechange"; argument := Napi.String "open" |};
        {| listener := "onmessage";
           argument := Napi.ArrayBuffer [x68; x65; x6c; x6c; x6f] |};
        {| listener := "onmessage"; argument := Napi.String "hi" |};
        closed_notification ].
Proof. reflexivity. Qed.

(** [close] is called twice on an open channel, then the peer connection is
    closed, then the native channel reports closed and the loop runs: the
    channel reads closed, and the listeners have not been told. *)
Lemma close_then_teardown_never_notified :
  exists this,
    run Sample.accepting
      [ CallClose; CallClose; PeerConnectionCloses;
        NativeEntersState webrtc.kClosed; LoopRuns ]
      (Sample.channel webrtc.kOpen)
    = Some this
    /\ readyState this = webrtc.kClosed
    /\ delivered this = []
    /\ closed_notifications (delivered this) <> 1.
Proof.
  eexists. split; [reflexivity|]. simpl.
  split; [reflexivity|]. split; [reflexivity|]. discriminate.
Qed.

Lemma close_notifies_closed_once_witness :
  let channel :=
    RTCDataChannel.constructed
      (observed [] (DataChannelObserver.new (Sample.native webrtc.kOpen))) in
  let pre := [CallClose] in
  let post :=
    [NativeEntersState webrtc.kClosing; CallClose;
     NativeEntersState webrtc.kClosed] in
  (exists this,
     run Sample.accepting
       (pre ++ repeat CallClose 2 ++ post ++ [LoopRuns]) channel
     = Some this
     /\ closed_notifications (delivered this) = 1)
  /\ (exists mid,
        run Sample.accepting (pre ++ repeat CallClose 2 ++ post) channel
        = Some mid
        /\ (RTCDataChannel._jingleDataChannel mid = None
            \/ stopped mid = true ->
            forall rest,
              exists last,
                run Sample.accepting (rest ++ [LoopRuns]) mid = Some last
                /\ closed_notifications (delivered last) = 1)
        /\ (forall native,
              RTCDataChannel._jingleDataChannel mid = Some native ->
              stopped mid = false ->
              closed_notifications (delivered mid) = 0
              /\ forall rest,
                   exists last,
                     run Sample.accepting (PeerConnectionCloses :: rest) mid
                     = Some last
                     /\ closed_notifications (delivered last) = 0))
  /\ (forall steps,
        exists this,
          run Sample.accepting steps channel = Some this
          /\ closed_notifications (delivered this) <= 1)
  /\ (forall this,
        RTCDataChannel.Close (RTCDataChannel.CleanupInternals this)
        = (Napi.Return Napi.Undefined, RTCDataChannel.CleanupInternals this)).
Proof.
  exact (close_notifies_closed_once Sample.accepting
           (Sample.native webrtc.kOpen) [] [CallClose]
           [NativeEntersState webrtc.kClosing; CallClose;
            NativeEntersState webrtc.kClosed] 2
           eq_refl eq_refl).
Defined.

(** The closed is reported to the channel, then the peer connection closes,
    then the loop runs: the listeners are told once. *)
Example reported_then_teardown :
  option_map (fun this => closed_notifications (delivered this))
    (run Sample.accepting
       [ CallClose; NativeEntersState webrtc.kClosed;
         PeerConnectionCloses; LoopRuns ]
       (Sample.channel webrtc.kOpen))
  = Some 1.
Proof. reflexivity. Qed.

(** The observer has kept the closed, and the peer connection closes before
    the loop of the channel has run: the listeners are never told. *)
Example kept_closed_then_teardown :
  option_map (fun this => closed_notifications (delivered this))
    (run Sample.accepting [PeerConnectionCloses; LoopRuns; LoopRuns]
       (RTCDataChannel.constructed
          (observed [NativeEntersState webrtc.kClosed]
             (DataChannelObserver.new (Sample.native webrtc.kClosing)))))
  = Some 0.
Proof. reflexivity. Qed.

(** ** Further properties of the binding *)

Section Further.

Variable env : Environment.

(** *** What [Send] hands over *)

Lemma with_jingleDataChannel_id this j :
  RTCDataChannel._jingleDataChannel this = Some j ->
  RTCDataChannel.with_jingleDataChannel (Some j) this = this.
Proof. destruct this; simpl; intros ->; reflexivity. Qed.

Lemma handed_nothing j : handed [] j = j.
Proof. destruct j; unfold handed; simpl. now rewrite app_nil_r. Qed.

Lemma handed_more a b j : handed b (handed a j) = handed (a ++ b) j.
Proof. unfold handed; simpl. now rewrite app_assoc. Qed.

Lemma Send_hands_payload info0 this j :
  RTCDataChannel._jingleDataChannel this = Some j ->
  webrtc.state j = webrtc.kOpen ->
  snd (RTCDataChannel.Send env info0 this)
  = RTCDataChannel.with_jingleDataChannel
      (Some (handed (payload info0) j)) this.
Proof.
  intros Hj Hopen. unfold payload.
  destruct (Napi.IsString info0) eqn:Hs.
  - destruct info0; try discriminate Hs.
    now rewrite (Send_open_text env this j utf8 Hj Hopen).
  - destruct (Napi.IsTypedArray info0 || Napi.IsDataView info0
              || Napi.IsArrayBuffer info0) eqn:Hk.
    + now rewrite (Send_open_binary env this j info0 Hj Hopen Hs Hk).
    + apply orb_false_iff in Hk. destruct Hk as [Hk Ha].
      apply orb_false_iff in Hk. destruct Hk as [Ht Hd].
      unfold RTCDataChannel.Send. rewrite Hj, Hopen, Hs, Ht, Hd, Ha. simpl.
      rewrite handed_nothing. symmetry.
      now apply with_jingleDataChannel_id.
Qed.

(** X1.  On a channel that stays open, a sequence of calls of [send] hands
    to the transport one buffer for each value that can be sent, in the
    order of the calls, behind what was handed before; the values that
    cannot be sent hand over nothing; nothing else of the channel
    changes. *)
Theorem sends_reach_transport_in_order values this j :
  RTCDataChannel._jingleDataChannel this = Some j ->
  webrtc.state j = webrtc.kOpen ->
  run env (map CallSend values) this
  = Some (RTCDataChannel.with_jingleDataChannel
            (Some (handed (flat_map payload values) j)) this).
Proof.
  revert this j.
  induction values as [|info0 values IH]; intros this j Hj Hopen; simpl.
  - rewrite handed_nothing. now rewrite with_jingleDataChannel_id.
  - rewrite (Send_hands_payload info0 this j Hj Hopen).
    rewrite (IH (RTCDataChannel.with_jingleDataChannel
                   (Some (handed (payload info0) j)) this)
               (handed (payload info0) j) eq_refl Hopen).
    now rewrite handed_more.
Qed.

Lemma window_length (buffer : list byte) byte_offset byte_length :
  byte_offset + byte_length <= length buffer ->
  length (firstn byte_length (skipn byte_offset buffer)) = byte_length.
Proof.
  intros H. rewrite length_firstn, length_skipn. lia.
Qed.

Lemma window_nth (buffer : list byte) byte_offset byte_length i d :
  i < byte_length ->
  nth i (firstn byte_length (skipn byte_offset buffer)) d
  = nth (byte_offset + i) buffer d.
Proof.
  intros H. rewrite nth_firstn.
  destruct (Nat.ltb_spec i byte_length); [|lia].
  apply nth_skipn.
Qed.

(** X2.  On an open channel, a typed array or a data view whose window lies
    within its array buffer is sent as one binary buffer of exactly
    [byte_length] bytes, which are the bytes of the array buffer from
    [byte_offset] on: the bytes of the array buffer outside the window are
    not sent. *)
Theorem Send_view_sends_its_window this j buffer byte_offset byte_length :
  RTCDataChannel._jingleDataChannel this = Some j ->
  webrtc.state j = webrtc.kOpen ->
  byte_offset + byte_length <= length buffer ->
  exists sent,
    snd (RTCDataChannel.Send env
           (Napi.TypedArray buffer byte_offset byte_length) this)
    = RTCDataChannel.with_jingleDataChannel (Some (handed [sent] j)) this
    /\ snd (RTCDataChannel.Send env
              (Napi.DataView buffer byte_offset byte_length) this)
       = RTCDataChannel.with_jingleDataChannel (Some (handed [sent] j)) this
    /\ webrtc.binary sent = true
    /\ webrtc.size sent = byte_length
    /\ forall i d,
         i < byte_length ->
         nth i (webrtc.data sent) d = nth (byte_offset + i) buffer d.
Proof.
  intros Hj Hopen Hin.
  exists {| webrtc.data := firstn byte_length (skipn byte_offset buffer);
            webrtc.binary := true |}.
  split; [exact (Send_hands_payload _ this j Hj Hopen)|].
  split; [exact (Send_hands_payload _ this j Hj Hopen)|].
  split; [reflexivity|]. split.
  - now apply window_length.
  - intros i d Hi. now apply window_nth.
Qed.

(** X3.  On an open channel an array buffer is sent whole, as one binary
    buffer of its bytes; a typed array or a data view that covers the whole
    array buffer sends the same. *)
Theorem Send_ArrayBuffer_whole this j bytes :
  RTCDataChannel._jingleDataChannel this = Some j ->
  webrtc.state j = webrtc.kOpen ->
  let sent := {| webrtc.data := bytes; webrtc.binary := true |} in
  RTCDataChannel.Send env (Napi.ArrayBuffer bytes) this
  = (Napi.Return Napi.Undefined,
     RTCDataChannel.with_jingleDataChannel (Some (handed [sent] j)) this)
  /\ RTCDataChannel.Send env (Napi.TypedArray bytes 0 (length bytes)) this
     = RTCDataChannel.Send env (Napi.ArrayBuffer bytes) this
  /\ RTCDataChannel.Send env (Napi.DataView bytes 0 (length bytes)) this
     = RTCDataChannel.Send env (Napi.ArrayBuffer bytes) this.
Proof.
  intros Hj Hopen sent.
  rewrite (Send_open_binary env this j (Napi.ArrayBuffer bytes) Hj Hopen
             eq_refl eq_refl).
  rewrite (Send_open_binary env this j (Napi.TypedArray bytes 0 (length bytes))
             Hj Hopen eq_refl eq_refl).
  rewrite (Send_open_binary env this j (Napi.DataView bytes 0 (length bytes))
             Hj Hopen eq_refl eq_refl).
  simpl. rewrite firstn_all. repeat split; reflexivity.
Qed.

(** X4.  In whatever state the channel is and whatever it is given, [Send]
    leaves the event loop, the cached attributes and the binary type as they
    were, and neither takes nor releases the binding; it ends by returning
    [undefined] or by raising the type error of the payload. *)
Theorem Send_touches_only_the_transport info0 this :
  let result := RTCDataChannel.Send env info0 this in
  RTCDataChannel.loop (snd result) = RTCDataChannel.loop this
  /\ own_fields (snd result) = own_fields this
  /\ (RTCDataChannel._jingleDataChannel (snd result) = None
      <-> RTCDataChannel._jingleDataChannel this = None)
  /\ (fst result = Napi.Return Napi.Undefined
      \/ fst result
         = Napi.Throw (Napi.TypeError "Expected a Blob or ArrayBuffer")).
Proof.
  unfold RTCDataChannel.Send.
  destruct (RTCDataChannel._jingleDataChannel this) as [j|] eqn:Hj.
  - destruct (webrtc.DataState_eqb (webrtc.state j) webrtc.kOpen); simpl.
    + destruct info0; simpl; rewrite ?Hj;
        repeat split; auto; discriminate.
    + rewrite Hj. repeat split; auto; discriminate.
  - simpl. rewrite Hj. repeat split; auto.
Qed.

(** *** Close *)

Lemma asked_to_close_none j : asked_to_close 0 j = j.
Proof. destruct j; reflexivity. Qed.

(** X5.  [Close] is forwarded every time: on a channel that holds its
    binding, [n] calls make [n] requests to the native channel to close and
    change nothing else, whatever the state of the native channel; on a
    channel that has released its binding they change nothing at all. *)
Theorem Close_forwards_every_call n this :
  run env (repeat CallClose n) this
  = Some match RTCDataChannel._jingleDataChannel this with
         | Some j =>
             RTCDataChannel.with_jingleDataChannel
               (Some (asked_to_close n j)) this
         | None => this
         end.
Proof.
  revert this. induction n as [|n IH]; intros this; simpl.
  - destruct (RTCDataChannel._jingleDataChannel this) as [j|] eqn:Hj;
      [|reflexivity].
    rewrite asked_to_close_none. now rewrite with_jingleDataChannel_id.
  - rewrite IH.
    destruct (RTCDataChannel._jingleDataChannel this) as [j|] eqn:Hj; simpl.
    + unfold asked_to_close. simpl. now rewrite Nat.add_succ_r.
    + now rewrite Hj.
Qed.

(** *** Releasing the binding *)

Lemma CleanupInternals_reads this :
  read_attributes (RTCDataChannel.CleanupInternals this)
  = read_attributes this.
Proof.
  rewrite (read_released _ (CleanupInternals_released this)).
  destruct (RTCDataChannel._jingleDataChannel this) as [j|] eqn:Hj.
  - rewrite (CleanupInternals_snapshot this j Hj).
    symmetry. now apply read_bound.
  - rewrite (CleanupInternals_guarded this Hj).
    symmetry. now apply read_released.
Qed.

Lemma CleanupInternals_binaryType this :
  RTCDataChannel._binaryType (RTCDataChannel.CleanupInternals this)
  = RTCDataChannel._binaryType this.
Proof.
  unfold RTCDataChannel.CleanupInternals.
  destruct (RTCDataChannel._jingleDataChannel this); reflexivity.
Qed.

(** X6.  [CleanupInternals] cannot be seen through the attributes: on any
    channel, the getters of the cacheable attributes return after it what
    they returned before it.  It leaves the event loop and the binary type
    alone, it leaves the channel reading closed, and running it again
    changes nothing. *)
Theorem CleanupInternals_invisible this :
  let cleaned := RTCDataChannel.CleanupInternals this in
  read_attributes cleaned = read_attributes this
  /\ RTCDataChannel.loop cleaned = RTCDataChannel.loop this
  /\ RTCDataChannel._binaryType cleaned = RTCDataChannel._binaryType this
  /\ readyState cleaned = webrtc.kClosed
  /\ RTCDataChannel.CleanupInternals cleaned = cleaned.
Proof.
  simpl.
  pose proof (CleanupInternals_released this) as Hrel.
  split; [apply CleanupInternals_reads|].
  split; [apply CleanupInternals_loop|].
  split; [apply CleanupInternals_binaryType|].
  split.
  { unfold readyState. now rewrite Hrel. }
  now apply CleanupInternals_guarded.
Qed.

(** X7.  A state change reported to a channel that holds its binding queues
    one event, which carries the state the native channel has at that
    moment, and delivers nothing yet; the binding is released exactly when
    that state is closed; the getters of the cacheable attributes and the
    binary type are not affected.  Reported to a channel that has released
    its binding, the callback has no result. *)
Theorem OnStateChange_queues_one_event this :
  match RTCDataChannel._jingleDataChannel this with
  | Some j =>
      exists next,
        RTCDataChannel.OnStateChange this = Some next
        /\ pending next = pending this ++ [StateChangeEvent (webrtc.state j)]
        /\ delivered next = delivered this
        /\ stopped next = stopped this
        /\ (RTCDataChannel._jingleDataChannel next = None
            <-> webrtc.state j = webrtc.kClosed)
        /\ read_attributes next = read_attributes this
        /\ RTCDataChannel._binaryType next = RTCDataChannel._binaryType this
  | None => RTCDataChannel.OnStateChange this = None
  end.
Proof.
  destruct (RTCDataChannel._jingleDataChannel this) as [j|] eqn:Hj.
  - unfold RTCDataChannel.OnStateChange. rewrite Hj.
    eexists. split; [reflexivity|].
    destruct (DataState_eqb_spec (webrtc.state j) webrtc.kClosed)
      as [Hc|Hc].
    + pose proof (CleanupInternals_reads this) as Hr.
      pose proof (CleanupInternals_loop this) as Hl.
      pose proof (CleanupInternals_binaryType this) as Hb.
      split.
      { unfold pending. simpl. now rewrite Hl. }
      split.
      { unfold delivered. simpl. now rewrite Hl. }
      split.
      { unfold stopped. simpl. now rewrite Hl. }
      split.
      { split; [auto|]. intros _. simpl. apply CleanupInternals_released. }
      split; [exact Hr|exact Hb].
    + split; [reflexivity|]. split; [reflexivity|].
      split; [reflexivity|]. split.
      { simpl. rewrite Hj. split; [discriminate|contradiction]. }
      split; reflexivity.
  - unfold RTCDataChannel.OnStateChange. now rewrite Hj.
Qed.

(** X8.  Closing the peer connection announces nothing and queues nothing:
    on any channel the notifications delivered and the events pending are
    after it what they were before it; the loop is stopped if the channel
    held its binding, and is left as it was if not. *)
Theorem teardown_is_silent this :
  let closed := RTCDataChannel.OnPeerConnectionClosed this in
  delivered closed = delivered this
  /\ pending closed = pending this
  /\ stopped closed
     = match RTCDataChannel._jingleDataChannel this with
       | Some _ => true
       | None => stopped this
       end
  /\ RTCDataChannel._binaryType closed = RTCDataChannel._binaryType this.
Proof.
  simpl. unfold RTCDataChannel.OnPeerConnectionClosed.
  destruct (RTCDataChannel._jingleDataChannel this) as [j|] eqn:Hj.
  - pose proof (CleanupInternals_loop this) as Hl.
    pose proof (CleanupInternals_binaryType this) as Hb.
    unfold delivered, pending, stopped. simpl. rewrite Hl.
    repeat split; auto.
  - repeat split; auto.
Qed.

(** X9.  After the peer connection has closed on a channel that held its
    binding, the listeners of the channel are told nothing more, whatever
    happens next: the events that were pending, and those the native
    channel produces from then on, are never announced. *)
Theorem teardown_ends_notifications this j steps :
  RTCDataChannel._jingleDataChannel this = Some j ->
  exists last,
    run env (PeerConnectionCloses :: steps) this = Some last
    /\ delivered last = delivered this
    /\ stopped last = true
    /\ RTCDataChannel._jingleDataChannel last = None.
Proof.
  intros Hj. simpl.
  assert (Hd : delivered (RTCDataChannel.OnPeerConnectionClosed this)
               = delivered this).
  { unfold RTCDataChannel.OnPeerConnectionClosed, delivered. rewrite Hj.
    simpl. now rewrite CleanupInternals_loop. }
  assert (Hs : stopped (RTCDataChannel.OnPeerConnectionClosed this) = true).
  { unfold RTCDataChannel.OnPeerConnectionClosed. now rewrite Hj. }
  assert (Hrel :
    RTCDataChannel._jingleDataChannel
      (RTCDataChannel.OnPeerConnectionClosed this) = None).
  { unfold RTCDataChannel.OnPeerConnectionClosed. rewrite Hj. simpl.
    apply CleanupInternals_released. }
  revert Hd Hs Hrel.
  generalize (RTCDataChannel.OnPeerConnectionClosed this) as closed.
  induction steps as [|step steps IH]; intros closed Hd Hs Hrel; simpl.
  - eauto.
  - destruct (stopped_step env step closed Hs) as (next & He & Hs' & Hd').
    destruct (exec_released env step closed Hrel) as (next' & He' & Hr' & _).
    assert (next' = next) by congruence. subst next'.
    rewrite He. apply IH; congruence.
Qed.

(** *** The constructor *)

Lemma requeue_with_loop queue this :
  fold_left (fun channel event => RTCDataChannel.Dispatch event channel)
    queue this
  = RTCDataChannel.with_loop
      (EventLoop.with_events (pending this ++ queue)
         (RTCDataChannel.loop this)) this.
Proof.
  revert this. induction queue as [|event queue IH]; intros this; simpl.
  - rewrite app_nil_r. unfold pending.
    destruct this as [[] ? ? ? ? ? ? ? ? ? ?]. reflexivity.
  - rewrite IH. unfold pending. simpl. unfold EventLoop.Enqueue.
    rewrite <- app_assoc. reflexivity.
Qed.

Lemma constructed_listening observer :
  listening (RTCDataChannel.constructed observer) = true.
Proof.
  unfold RTCDataChannel.constructed, RTCDataChannel.requeue.
  now rewrite requeue_with_loop.
Qed.

(** X10.  A channel constructed on an observer holds the native channel of
    the observer and listens to it in the observer's place; its getters
    return the attributes of the native channel, not the zeros that the
    constructor puts in the cached fields, and its state is that of the
    native channel; its binary type is [kArrayBuffer]; the events that the
    observer kept are pending, in the order the observer got them, and none
    has been announced.  Without [new] the constructor raises a
    [TypeError]; [Create] always constructs. *)
Theorem constructed_reads_native observer :
  let this := RTCDataChannel.constructed observer in
  let native := DataChannelObserver._jingleDataChannel observer in
  RTCDataChannel._jingleDataChannel this
  = Some (webrtc.RegisterObserver webrtc.TheRTCDataChannel native)
  /\ listening this = true
  /\ read_attributes this = native_attributes native
  /\ readyState this = webrtc.state native
  /\ RTCDataChannel._binaryType this = kArrayBuffer
  /\ pending this = DataChannelObserver.events observer
  /\ delivered this = []
  /\ stopped this = false
  /\ RTCDataChannel.Create observer = inr this
  /\ RTCDataChannel.new false observer
     = inl (Napi.TypeError
              "Use the new operator to construct the RTCDataChannel.").
Proof.
  cbv zeta.
  unfold RTCDataChannel.Create, RTCDataChannel.new.
  unfold RTCDataChannel.constructed, RTCDataChannel.requeue.
  rewrite requeue_with_loop. simpl.
  repeat split.
Qed.

(** *** The binary type *)

Section BinaryTypeConverter.

Context `{Converter BinaryType}.

(** X11.  Setting the binary type to a value that the converter reads
    returns [undefined], and the getter then returns that binary type;
    setting it to any other value raises a [TypeError] with the converter's
    first error and leaves the channel as it was.  In both cases the
    binding, the cached attributes and the event loop are untouched. *)
Theorem binaryType_set_then_get value this :
  let result := RTCDataChannel.SetBinaryType env value this in
  match From_BinaryType env value with
  | inr binaryType =>
      fst result = Napi.Return Napi.Undefined
      /\ RTCDataChannel.GetBinaryType (snd result)
         = Napi.Return (convert binaryType)
  | inl error =>
      fst result = Napi.Throw (Napi.TypeError error)
      /\ snd result = this
  end
  /\ RTCDataChannel._jingleDataChannel (snd result)
     = RTCDataChannel._jingleDataChannel this
  /\ cached_attributes (snd result) = cached_attributes this
  /\ RTCDataChannel.loop (snd result) = RTCDataChannel.loop this.
Proof.
  cbv zeta. unfold RTCDataChannel.SetBinaryType.
  destruct (From_BinaryType env value); simpl; repeat split.
Qed.

End BinaryTypeConverter.

(** X12.  The binary type has no part in the delivery of a message: the
    handler makes the same notification of a buffer whatever the binary
    type is set to, and the binary type stays as set; with the binary type
    [kBlob], binary data still reaches the listener as an array buffer. *)
Theorem binaryType_ignored_by_delivery binaryType channel buffer :
  RTCDataChannel.HandleMessage env
    (RTCDataChannel.with_binaryType binaryType channel) buffer
  = RTCDataChannel.with_binaryType binaryType
      (RTCDataChannel.HandleMessage env channel buffer)
  /\ delivered
       (RTCDataChannel.HandleMessage env
          (RTCDataChannel.with_binaryType kBlob channel)
          {| webrtc.data := webrtc.data buffer; webrtc.binary := true |})
     = delivered channel
       ++ [{| listener := "onmessage";
              argument := Napi.ArrayBuffer (webrtc.data buffer) |}].
Proof.
  split; [reflexivity|].
  rewrite HandleMessage_binary. reflexivity.
Qed.

(** *** From [send] to [onmessage] *)

(** X13.  Binary data survives the way from [send] to [onmessage]: the
    buffer that [Send] hands to the transport for an array buffer on an open
    channel, given to the handler of any channel, reaches the listener once,
    as an array buffer of the same bytes. *)
Theorem binary_round_trip sender j receiver bytes :
  RTCDataChannel._jingleDataChannel sender = Some j ->
  webrtc.state j = webrtc.kOpen ->
  exists buffer,
    snd (RTCDataChannel.Send env (Napi.ArrayBuffer bytes) sender)
    = RTCDataChannel.with_jingleDataChannel (Some (handed [buffer] j)) sender
    /\ forall env',
         delivered (RTCDataChannel.HandleMessage env' receiver buffer)
         = delivered receiver
           ++ [{| listener := "onmessage";
                  argument := Napi.ArrayBuffer bytes |}].
Proof.
  intros Hj Hopen.
  exists {| webrtc.data := bytes; webrtc.binary := true |}. split.
  - rewrite (Send_open_binary env sender j (Napi.ArrayBuffer bytes) Hj Hopen
               eq_refl eq_refl).
    simpl. now rewrite firstn_all.
  - intros env'. now rewrite HandleMessage_binary.
Qed.

Lemma c_str_shorter array s :
  Napi.c_str array = Some s -> length s < length array.
Proof.
  revert s. induction array as [|b array IH]; simpl; intros s H.
  - discriminate.
  - destruct (Byte.eqb b x00).
    + injection H as <-. simpl. lia.
    + destruct (Napi.c_str array) as [s'|]; [|discriminate].
      injection H as <-. simpl. specialize (IH s' eq_refl). lia.
Qed.

(** X14.  Text survives the way from [send] to [onmessage] in one case
    only: the buffer that [Send] hands to the transport for a string, given
    to the handler, reaches the listener as the same string exactly when
    the string holds no NUL and the memory behind the handler's copy
    begins with a NUL. *)
Theorem text_round_trip sender j receiver text :
  RTCDataChannel._jingleDataChannel sender = Some j ->
  webrtc.state j = webrtc.kOpen ->
  exists buffer,
    snd (RTCDataChannel.Send env (Napi.String text) sender)
    = RTCDataChannel.with_jingleDataChannel (Some (handed [buffer] j)) sender
    /\ forall env',
         delivered (RTCDataChannel.HandleMessage env' receiver buffer)
         = delivered receiver
           ++ [{| listener := "onmessage"; argument := Napi.String text |}]
         <-> Napi.c_str (list_byte_of_string text) = None
             /\ heap_beyond env' (list_byte_of_string text) = [].
Proof.
  intros Hj Hopen.
  exists (webrtc.DataBuffer_of_text text). split.
  - now rewrite (Send_open_text env sender j text Hj Hopen).
  - intros env'.
    unfold RTCDataChannel.HandleMessage, Napi.String_New_cstr, webrtc.size.
    unfold delivered. simpl. rewrite firstn_all.
    set (bytes := list_byte_of_string text).
    destruct (Napi.c_str bytes) as [s|] eqn:Hc; split.
    + intros Heq. apply app_inv_head in Heq. injection Heq as Heq.
      apply (f_equal list_byte_of_string) in Heq.
      rewrite list_byte_of_string_of_list_byte in Heq.
      pose proof (c_str_shorter bytes s Hc) as Hlt.
      fold bytes in Heq. rewrite Heq in Hlt. lia.
    + intros [Hno _]. discriminate.
    + intros Heq. apply app_inv_head in Heq. injection Heq as Heq.
      apply (f_equal list_byte_of_string) in Heq.
      rewrite list_byte_of_string_of_list_byte in Heq.
      fold bytes in Heq. split; [reflexivity|].
      assert (Hnil : bytes ++ heap_beyond env' bytes = bytes ++ [])
        by (now rewrite app_nil_r).
      now apply app_inv_head in Hnil.
    + intros [_ Hb]. rewrite Hb, app_nil_r. unfold bytes.
      now rewrite string_of_list_byte_of_string.
Qed.

(** *** What the listeners can hear *)

(** X15.  Whatever happens to a channel from its construction on, its
    listeners hear of state changes to open and to closed only (a change to
    connecting or to closing is never announced), and of messages: every
    notification delivered is the one of open, the one of closed, or goes to
    [onmessage]. *)
Theorem only_open_and_closed_announced j before steps :
  exists this,
    run env steps
      (RTCDataChannel.constructed
         (observed before (DataChannelObserver.new j)))
    = Some this
    /\ forall n,
         In n (delivered this) ->
         n = {| listener := "onstatechange"; argument := Napi.String "open" |}
         \/ n = closed_notification
         \/ listener n = "onmessage"%string.
Proof.
  pose proof (constructed_in_order env
                (observed before (DataChannelObserver.new j))) as Hstart.
  destruct (safe_run env _ steps _ (or_introl Hstart))
    as (this & Hrun & handled & rest & _ & Hd).
  exists this. split; [exact Hrun|].
  intros n Hn. rewrite Hd in Hn. apply in_flat_map in Hn.
  destruct Hn as (event & _ & Hn).
  destruct event as [[]|buffer]; simpl in Hn;
    repeat (destruct Hn as [Hn|Hn]; [subst n; auto|]); destruct Hn.
Qed.

(** *** Holding the binding *)

Lemma held_step step this :
  listening this = true ->
  releases step = false ->
  exists next, exec env step this = Some next /\ listening next = true.
Proof.
  intros L Hstep.
  destruct (listening_bound this L) as (j & Hj & Ho).
  destruct step; simpl in *; try discriminate; rewrite ?L.
  - unfold RTCDataChannel.OnStateChange, native_enters. rewrite Hj. simpl.
    eexists. split; [reflexivity|].
    destruct state; try discriminate; unfold listening; simpl;
      now rewrite Ho.
  - eexists. split; [reflexivity|]. exact L.
  - eexists. split; [reflexivity|].
    unfold listening in *. now rewrite Run_binding.
  - eexists. split; [reflexivity|].
    destruct (Send_keeps_binding env info0 this) as [_ Hb].
    rewrite Hj in Hb. destruct Hb as (j' & Hj' & Ho').
    unfold listening. now rewrite Hj', Ho', Ho.
  - eexists. split; [reflexivity|].
    unfold listening. simpl. rewrite Hj. simpl. now rewrite Ho.
  - eexists. split; [reflexivity|].
    unfold RTCDataChannel.SetBinaryType.
    destruct (From_BinaryType env value); simpl; exact L.
Qed.

(** X16.  A channel lets go of its native channel only when the native
    channel reports closed to it or when the peer connection closes.  As
    long as neither happens, whatever is sent, closed, set, received or
    run, the channel holds its binding and listens; this is so even after
    the replay of a closed that the observer had kept has been announced. *)
Theorem binding_held_until_released j before steps :
  forallb (fun step => negb (releases step)) steps = true ->
  exists this native,
    run env steps
      (RTCDataChannel.constructed
         (observed before (DataChannelObserver.new j)))
    = Some this
    /\ RTCDataChannel._jingleDataChannel this = Some native
    /\ listening this = true.
Proof.
  intros Hsteps.
  pose proof (constructed_listening
                (observed before (DataChannelObserver.new j))) as L.
  revert L Hsteps.
  generalize (RTCDataChannel.constructed
                (observed before (DataChannelObserver.new j))) as this.
  induction steps as [|step steps IH]; intros this L Hsteps; simpl.
  - destruct (listening_bound this L) as (native & Hn & _). eauto.
  - simpl in Hsteps. apply andb_true_iff in Hsteps.
    destruct Hsteps as [Hstep Hsteps]. apply negb_true_iff in Hstep.
    destruct (held_step step this L Hstep) as (next & -> & Ln).
    now apply IH.
Qed.

End Further.

(** A string, a number and an array buffer sent in a row: the string and
    the array buffer reach the transport, in that order. *)
Lemma sends_reach_transport_in_order_witness :
  run Sample.accepting
    (map CallSend [Napi.String "a"; Napi.Number 1; Napi.ArrayBuffer [x01]])
    (Sample.channel webrtc.kOpen)
  = Some (RTCDataChannel.with_jingleDataChannel
            (Some (handed
                     (flat_map payload
                        [Napi.String "a"; Napi.Number 1;
                         Napi.ArrayBuffer [x01]])
                     (Sample.bound_native webrtc.kOpen)))
            (Sample.channel webrtc.kOpen)).
Proof.
  apply (sends_reach_transport_in_order Sample.accepting
           [Napi.String "a"; Napi.Number 1; Napi.ArrayBuffer [x01]]
           (Sample.channel webrtc.kOpen) (Sample.bound_native webrtc.kOpen)
           eq_refl eq_refl).
Defined.

(** Two bytes from the second on, of an array buffer of four. *)
Lemma Send_view_sends_its_window_witness :
  1 + 2 <= length [x01; x02; x03; x04] /\
  exists sent,
    snd (RTCDataChannel.Send Sample.accepting
           (Napi.TypedArray [x01; x02; x03; x04] 1 2)
           (Sample.channel webrtc.kOpen))
    = RTCDataChannel.with_jingleDataChannel
        (Some (handed [sent] (Sample.bound_native webrtc.kOpen)))
        (Sample.channel webrtc.kOpen)
    /\ snd (RTCDataChannel.Send Sample.accepting
              (Napi.DataView [x01; x02; x03; x04] 1 2)
              (Sample.channel webrtc.kOpen))
       = RTCDataChannel.with_jingleDataChannel
           (Some (handed [sent] (Sample.bound_native webrtc.kOpen)))
           (Sample.channel webrtc.kOpen)
    /\ webrtc.binary sent = true
    /\ webrtc.size sent = 2
    /\ forall i d,
         i < 2 ->
         nth i (webrtc.data sent) d = nth (1 + i) [x01; x02; x03; x04] d.
Proof.
  assert (Hin : 1 + 2 <= length [x01; x02; x03; x04]) by (simpl; lia).
  split; [exact Hin|].
  exact (Send_view_sends_its_window Sample.accepting
           (Sample.channel webrtc.kOpen) (Sample.bound_native webrtc.kOpen)
           [x01; x02; x03; x04] 1 2 eq_refl eq_refl Hin).
Defined.

Lemma Send_ArrayBuffer_whole_witness :
  let sent := {| webrtc.data := [x01; x02]; webrtc.binary := true |} in
  RTCDataChannel.Send Sample.accepting (Napi.ArrayBuffer [x01; x02])
    (Sample.channel webrtc.kOpen)
  = (Napi.Return Napi.Undefined,
     RTCDataChannel.with_jingleDataChannel
       (Some (handed [sent] (Sample.bound_native webrtc.kOpen)))
       (Sample.channel webrtc.kOpen))
  /\ RTCDataChannel.Send Sample.accepting
       (Napi.TypedArray [x01; x02] 0 (length [x01; x02]))
       (Sample.channel webrtc.kOpen)
     = RTCDataChannel.Send Sample.accepting (Napi.ArrayBuffer [x01; x02])
         (Sample.channel webrtc.kOpen)
  /\ RTCDataChannel.Send Sample.accepting
       (Napi.DataView [x01; x02] 0 (length [x01; x02]))
       (Sample.channel webrtc.kOpen)
     = RTCDataChannel.Send Sample.accepting (Napi.ArrayBuffer [x01; x02])
         (Sample.channel webrtc.kOpen).
Proof.
  exact (Send_ArrayBuffer_whole Sample.accepting
           (Sample.channel webrtc.kOpen) (Sample.bound_native webrtc.kOpen)
           [x01; x02] eq_refl eq_refl).
Defined.

(** The peer connection closes on an open channel; the native channel then
    receives a message and closes, and the loop runs: nothing is heard. *)
Lemma teardown_ends_notifications_witness :
  exists last,
    run Sample.accepting
      [ PeerConnectionCloses; NativeReceives Sample.hello;
        NativeEntersState webrtc.kClosed; LoopRuns ]
      (Sample.channel webrtc.kOpen)
    = Some last
    /\ delivered last = delivered (Sample.channel webrtc.kOpen)
    /\ stopped last = true
    /\ RTCDataChannel._jingleDataChannel last = None.
Proof.
  exact (teardown_ends_notifications Sample.accepting
           (Sample.channel webrtc.kOpen) (Sample.bound_native webrtc.kOpen)
           [ NativeReceives Sample.hello;
             NativeEntersState webrtc.kClosed; LoopRuns ]
           eq_refl).
Defined.

Lemma binary_round_trip_witness :
  exists buffer,
    snd (RTCDataChannel.Send Sample.accepting (Napi.ArrayBuffer [x00; xff])
           (Sample.channel webrtc.kOpen))
    = RTCDataChannel.with_jingleDataChannel
        (Some (handed [buffer] (Sample.bound_native webrtc.kOpen)))
        (Sample.channel webrtc.kOpen)
    /\ forall env',
         delivered
           (RTCDataChannel.HandleMessage env'
              (Sample.channel webrtc.kConnecting) buffer)
         = delivered (Sample.channel webrtc.kConnecting)
           ++ [{| listener := "onmessage";
                  argument := Napi.ArrayBuffer [x00; xff] |}].
Proof.
  exact (binary_round_trip Sample.accepting
           (Sample.channel webrtc.kOpen) (Sample.bound_native webrtc.kOpen)
           (Sample.channel webrtc.kConnecting) [x00; xff]
           eq_refl eq_refl).
Defined.

Lemma text_round_trip_witness :
  exists buffer,
    snd (RTCDataChannel.Send Sample.accepting (Napi.String "hi")
           (Sample.channel webrtc.kOpen))
    = RTCDataChannel.with_jingleDataChannel
        (Some (handed [buffer] (Sample.bound_native webrtc.kOpen)))
        (Sample.channel webrtc.kOpen)
    /\ forall env',
         delivered
           (RTCDataChannel.HandleMessage env'
              (Sample.channel webrtc.kConnecting) buffer)
         = delivered (Sample.channel webrtc.kConnecting)
           ++ [{| listener := "onmessage"; argument := Napi.String "hi" |}]
         <-> Napi.c_str (list_byte_of_string "hi") = None
             /\ heap_beyond env' (list_byte_of_string "hi") = [].
Proof.
  exact (text_round_trip Sample.accepting
           (Sample.channel webrtc.kOpen) (Sample.bound_native webrtc.kOpen)
           (Sample.channel webrtc.kConnecting) "hi"
           eq_refl eq_refl).
Defined.

(** The observer has kept a closed; the channel constructed on it announces
    closed when the loop runs, and still holds its binding after a call of
    [close]. *)
Lemma binding_held_until_released_witness :
  exists this native,
    run Sample.accepting [LoopRuns; CallClose]
      (RTCDataChannel.constructed
         (observed [NativeEntersState webrtc.kClosed]
            (DataChannelObserver.new (Sample.native webrtc.kClosing))))
    = Some this
    /\ RTCDataChannel._jingleDataChannel this = Some native
    /\ listening this = true.
Proof.
  exact (binding_held_until_released Sample.accepting
           (Sample.native webrtc.kClosing)
           [NativeEntersState webrtc.kClosed] [LoopRuns; CallClose]
           eq_refl).
Defined.

Example replayed_closed_keeps_binding :
  option_map (fun this => (delivered this, listening this))
    (run Sample.accepting [LoopRuns; CallClose]
       (RTCDataChannel.constructed
          (observed [NativeEntersState webrtc.kClosed]
             (DataChannelObserver.new (Sample.native webrtc.kClosing)))))
  = Some ([closed_notification], true).
Proof. reflexivity. Qed.
